(** * RemoteAuth: remote session persistence for whatsapp-web.js

    A shallow embedding of the [RemoteAuth] authentication strategy and the
    properties of its backup / restore cycle.

    The repository holds two revisions of the class:
    - [Named]   : [src/authStrategies/RemoteAuth.js];
    - [Unnamed] : the second copy of the class (same requires, same methods).
    Every method below is one definition that takes the revision as an
    argument and branches exactly where the two files differ.

    The collaborators of the class are modelled in the first half of the
    file: JavaScript values, Node's POSIX [path] module, a flat filesystem,
    the remote store, the archiver and the zip reader. *)

From Stdlib Require Import ZArith String Ascii Bool Lia.
From stdpp Require Import base strings list gmap fin_maps.

Local Open Scope Z_scope.

(** ** JavaScript values and errors *)

(** The values an option of the constructor takes in practice. *)
Inductive Value :=
| Undefined
| Null
| Str (s : string).

(** [ToBoolean]: only a non-empty string is truthy. *)
Definition truthy (v : Value) : bool :=
  match v with
  | Str EmptyString => false
  | Str _ => true
  | _ => false
  end.

(** [ToString], as a template literal [`${v}`] applies it. *)
Definition to_String (v : Value) : string :=
  match v with
  | Undefined => "undefined"
  | Null => "null"
  | Str s => s
  end.

(** [new Error(message)]. *)
Inductive Error := Err (message : string).

Definition message (e : Error) : string := let 'Err m := e in m.

(** ** The identifier pattern [/^[-_\w]+$/i] *)

Module IdRegex.

Definition between (lo hi : nat) (c : ascii) : bool :=
  let n := nat_of_ascii c in (lo <=? n)%nat && (n <=? hi)%nat.

(** [\w] is [[A-Za-z0-9_]]; the [i] flag adds nothing to it. *)
Definition word_char (c : ascii) : bool :=
  between 48 57 c || between 65 90 c || between 97 122 c
  || Ascii.eqb c "_".

(** The character class [[-_\w]]. *)
Definition class (c : ascii) : bool :=
  Ascii.eqb c "-" || Ascii.eqb c "_" || word_char c.

(** [[-_\w]*$]: every remaining character is in the class. *)
Fixpoint star (s : string) : bool :=
  match s with
  | EmptyString => true
  | String c rest => class c && star rest
  end.

(** [idRegex.test(s)]: one character of the class, then [star]. *)
Definition test (s : string) : bool :=
  match s with
  | EmptyString => false
  | String c rest => class c && star rest
  end.

End IdRegex.

(** ** Node's [path] module (POSIX flavour) *)

Module Path.

(** [s.split('/')], with [cur] the segment being read. *)
Fixpoint split_from (cur s : string) : list string :=
  match s with
  | EmptyString => [cur]
  | String c rest =>
      if Ascii.eqb c "/" then cur :: split_from "" rest
      else split_from (cur +:+ String c "") rest
  end.

Definition split (s : string) : list string := split_from "" s.

(** [normalizeString]: [res] holds the kept segments, last one first. *)
Fixpoint normalize_segments (allowAboveRoot : bool) (res segs : list string)
  : list string :=
  match segs with
  | [] => rev res
  | seg :: rest =>
      if String.eqb seg "" || String.eqb seg "." then
        normalize_segments allowAboveRoot res rest
      else if String.eqb seg ".." then
        match res with
        | last :: res' =>
            if String.eqb last ".." then
              normalize_segments allowAboveRoot
                (if allowAboveRoot then ".." :: res else res) rest
            else normalize_segments allowAboveRoot res' rest
        | [] =>
            normalize_segments allowAboveRoot
              (if allowAboveRoot then [".."] else []) rest
        end
      else normalize_segments allowAboveRoot (seg :: res) rest
  end.

Definition normalizeString (p : string) (allowAboveRoot : bool) : string :=
  String.concat "/" (normalize_segments allowAboveRoot [] (split p)).

Definition isAbsolute (p : string) : bool :=
  match p with
  | String c _ => Ascii.eqb c "/"
  | EmptyString => false
  end.

Fixpoint ends_with_slash (p : string) : bool :=
  match p with
  | EmptyString => false
  | String c EmptyString => Ascii.eqb c "/"
  | String _ rest => ends_with_slash rest
  end.

(** [path.normalize]. *)
Definition normalize (p : string) : string :=
  match p with
  | EmptyString => "."
  | _ =>
      let abs := isAbsolute p in
      let trailing := ends_with_slash p in
      let q := normalizeString p (negb abs) in
      match q with
      | EmptyString =>
          if abs then "/" else if trailing then "./" else "."
      | _ =>
          let q' := if trailing then q +:+ "/" else q in
          if abs then "/" +:+ q' else q'
      end
  end.

(** [path.join(a, b)]: empty arguments are skipped. *)
Definition join (a b : string) : string :=
  match a, b with
  | EmptyString, EmptyString => "."
  | EmptyString, _ => normalize b
  | _, EmptyString => normalize a
  | _, _ => normalize (a +:+ "/" +:+ b)
  end.

(** [process.cwd()] for a working directory given by its segments: always
    an absolute path. *)
Definition cwd_string (cwd : list string) : string :=
  "/" +:+ String.concat "/" cwd.

(** [path.resolve(p)] in a process whose working directory is [cwd]. *)
Definition resolve (cwd : list string) (p : string) : string :=
  let resolvedPath :=
    if isAbsolute p then p +:+ "/"
    else match p with
         | EmptyString => cwd_string cwd +:+ "/"
         | _ => cwd_string cwd +:+ "/" +:+ p +:+ "/"
         end in
  "/" +:+ normalizeString resolvedPath false.

End Path.

(** ** The world the class runs in *)

(** What a file holds: raw bytes, or a zip archive with its entries, each
    with its path relative to the archived directory. *)
Inductive Content :=
| Bytes (b : string)
| Zip (entries : list Entry)
with Entry :=
| DirEntry (rel : string)
| FileEntry (rel : string) (c : Content).

Inductive Node :=
| File (c : Content)
| Dir.

(** Modelled from the spec: the [Events.REMOTE_SESSION_SAVED] constant of
    [util/Constants], the "remote session saved" notification to the host. *)
Inductive Event := REMOTE_SESSION_SAVED.

(** A line on the console, with the arguments it was given. *)
Inductive Log :=
| LogError (args : list string)
| LogWarn (args : list string).

(** The calls the class makes to its collaborators, in the order made. *)
Inductive Call :=
| FsAccess (p : string)
| FsUnlink (p : string)
| FsRm (p : Value)
| FsMkdir (p : Value)
| FsReaddir (p : string)
| FsLstat (p : string)
| FsRename (a b : string)
| FsCopy (a : Value) (b : string)
| FsCreateWriteStream (p : string)
| ArchiverFinalize (dir dest : string)
| ZipExtractAllTo (zip : string) (dest : Value)
| StoreSessionExists (session : string)
| StoreSave (session path : string)
| StoreExtract (session path : string)
| StoreDelete (session : string)
| ClientEmit (ev : Event)
| SetTimeout (ms : Z)
| SetInterval (ms : Z)
| ClearInterval.

(** The state of everything around the class.  [faults] is the behaviour of
    the collaborators the class cannot see into (the remote store and the
    archiver stream): the call made when [n] calls were made before it fails
    when [faults n] holds.  [unzip] is the zip reader, a package that is not
    part of the repository: [unzip node dest fs] is the error it reports, if
    any, and the entries it writes, in the order written, when it is asked
    to extract what is at the path of the archive, [node], into [dest] on
    the disk [fs].  Nothing is assumed of it: it may refuse an archive before
    it writes anything, or fail after part of the entries are written. *)
Record World := {
  files : gmap string Node;
  remote : gmap string Content;
  emitted : list Event;
  console : list Log;
  trace : list Call;
  backupSync : option Z;
  puppeteer_userDataDir : Value;
  faults : nat → bool;
  unzip : option Node → Value → gmap string Node
          → option Error * list (string * Node);
}.

Definition with_files (f : gmap string Node) (w : World) : World :=
  {| files := f; remote := remote w; emitted := emitted w;
     console := console w; trace := trace w; backupSync := backupSync w;
     puppeteer_userDataDir := puppeteer_userDataDir w; faults := faults w;
     unzip := unzip w |}.

Definition with_remote (r : gmap string Content) (w : World) : World :=
  {| files := files w; remote := r; emitted := emitted w;
     console := console w; trace := trace w; backupSync := backupSync w;
     puppeteer_userDataDir := puppeteer_userDataDir w; faults := faults w;
     unzip := unzip w |}.

Definition with_emitted (e : list Event) (w : World) : World :=
  {| files := files w; remote := remote w; emitted := e;
     console := console w; trace := trace w; backupSync := backupSync w;
     puppeteer_userDataDir := puppeteer_userDataDir w; faults := faults w;
     unzip := unzip w |}.

Definition with_console (c : list Log) (w : World) : World :=
  {| files := files w; remote := remote w; emitted := emitted w;
     console := c; trace := trace w; backupSync := backupSync w;
     puppeteer_userDataDir := puppeteer_userDataDir w; faults := faults w;
     unzip := unzip w |}.

Definition with_trace (t : list Call) (w : World) : World :=
  {| files := files w; remote := remote w; emitted := emitted w;
     console := console w; trace := t; backupSync := backupSync w;
     puppeteer_userDataDir := puppeteer_userDataDir w; faults := faults w;
     unzip := unzip w |}.

Definition with_backupSync (b : option Z) (w : World) : World :=
  {| files := files w; remote := remote w; emitted := emitted w;
     console := console w; trace := trace w; backupSync := b;
     puppeteer_userDataDir := puppeteer_userDataDir w; faults := faults w;
     unzip := unzip w |}.

Definition with_puppeteer_userDataDir (d : Value) (w : World) : World :=
  {| files := files w; remote := remote w; emitted := emitted w;
     console := console w; trace := trace w; backupSync := backupSync w;
     puppeteer_userDataDir := d; faults := faults w;
     unzip := unzip w |}.

(** ** Promises *)

(** How an awaited call ends: the promise resolves, it rejects, or an error
    nobody listens for brings the process down. *)
Inductive Outcome (A : Type) :=
| Resolved (a : A)
| Rejected (e : Error)
| Crashed (e : Error).

Arguments Resolved {A} a.
Arguments Rejected {A} e.
Arguments Crashed {A} e.

Definition Async (A : Type) : Type := World → Outcome A * World.

Definition ret {A} (a : A) : Async A := λ w, (Resolved a, w).

Definition throw {A} (e : Error) : Async A := λ w, (Rejected e, w).

Definition crash {A} (e : Error) : Async A := λ w, (Crashed e, w).

Definition bind {A B} (m : Async A) (k : A → Async B) : Async B :=
  λ w, match m w with
       | (Resolved a, w') => k a w'
       | (Rejected e, w') => (Rejected e, w')
       | (Crashed e, w') => (Crashed e, w')
       end.

Declare Scope async_scope.
Delimit Scope async_scope with async.
Notation "x <- m ;; k" := (bind m (λ x, k))
  (at level 100, m at next level, right associativity) : async_scope.
Notation "m ;; k" := (bind m (λ _, k))
  (at level 100, right associativity) : async_scope.
Local Open Scope async_scope.

(** [try { body } catch (error) { handler }]. *)
Definition try_catch {A} (body : Async A) (handler : Error → Async A)
  : Async A :=
  λ w, match body w with
       | (Rejected e, w') => handler e w'
       | r => r
       end.

(** [promise.catch(() => {})]. *)
Definition swallow (m : Async unit) : Async unit :=
  try_catch m (λ _, ret tt).

(** [promise.catch(() => a)]. *)
Definition or_else {A} (m : Async A) (a : A) : Async A :=
  try_catch m (λ _, ret a).

(** [for (const x of l) { body }]. *)
Fixpoint for_of {A} (l : list A) (body : A → Async unit) : Async unit :=
  match l with
  | [] => ret tt
  | x :: rest => body x;; for_of rest body
  end.

Definition gets {A} (f : World → A) : Async A := λ w, (Resolved (f w), w).

Definition modify (f : World → World) : Async unit :=
  λ w, (Resolved tt, f w).

(** Note a call in the trace. *)
Definition called (c : Call) : Async unit :=
  modify (λ w, with_trace (trace w ++ [c]) w).

(** Does the collaborator fail the call about to be made? *)
Definition faulted : Async bool :=
  gets (λ w, faults w (length (trace w))).

(** ** Filesystem

    A flat model: a map from path strings to nodes, where the entries of a
    directory [d] are the paths that extend [d +:+ "/"].  A call fails for
    the reasons its arguments give (no entry, a directory where a file is
    expected, and the converse); permission and device errors are outside the
    model, parent directories are not tracked, and a relative path is a key
    of its own, never an alias of an absolute one. *)

Module Fs.

Fixpoint drop_chars (n : nat) (s : string) : string :=
  match n, s with
  | O, _ => s
  | S n', String _ rest => drop_chars n' rest
  | S _, EmptyString => EmptyString
  end.

Fixpoint has_slash (s : string) : bool :=
  match s with
  | EmptyString => false
  | String c rest => Ascii.eqb c "/" || has_slash rest
  end.

(** [s.startsWith(pre)]. *)
Fixpoint starts_with (pre s : string) : bool :=
  match pre, s with
  | EmptyString, _ => true
  | String a pre', String b s' => Ascii.eqb a b && starts_with pre' s'
  | String _ _, EmptyString => false
  end.

(** [p] is strictly below the directory [d]. *)
Definition inside (d p : string) : bool := starts_with (d +:+ "/") p.

Definition at_or_inside (d p : string) : bool :=
  String.eqb p d || inside d p.

(** The path of [p] relative to the directory [d] that holds it. *)
Definition relative (d p : string) : string :=
  drop_chars (String.length d + 1) p.

(** [rm -r d]. *)
Definition remove_tree (d : string) (fs : gmap string Node)
  : gmap string Node :=
  filter (λ kv, at_or_inside d kv.1 = false) fs.

(** Everything below [d], with relative paths. *)
Definition subtree (d : string) (fs : gmap string Node)
  : list (string * Node) :=
  omap (λ kv : string * Node,
          if inside d kv.1 then Some (relative d kv.1, kv.2) else None)
       (map_to_list fs).

(** The names [readdir d] lists: the direct entries of [d]. *)
Definition names (d : string) (fs : gmap string Node) : list string :=
  omap (λ kv : string * Node,
          match kv.1 with
          | EmptyString => None
          | n => if has_slash n then None else Some n
          end)
       (subtree d fs).

(** Put the entries below [dst], replacing what is there. *)
Definition graft (dst : string) (entries : list (string * Node))
    (fs : gmap string Node) : gmap string Node :=
  foldr (λ kv acc, <[dst +:+ "/" +:+ kv.1 := kv.2]> acc) fs entries.

Definition entry_of (kv : string * Node) : Entry :=
  match kv.2 with
  | File c => FileEntry kv.1 c
  | Dir => DirEntry kv.1
  end.

(** Write the entries at their paths, one after the other. *)
Definition write (entries : list (string * Node)) (fs : gmap string Node)
  : gmap string Node :=
  foldl (λ acc kv, <[kv.1 := kv.2]> acc) fs entries.

End Fs.

(** ** The collaborators' calls *)

Definition set_files (f : gmap string Node → gmap string Node) : Async unit :=
  modify (λ w, with_files (f (files w)) w).

Definition ENOENT : Error := Err "ENOENT: no such file or directory".
Definition EISDIR : Error := Err "EISDIR: illegal operation on a directory".
Definition ENOTDIR : Error := Err "ENOTDIR: not a directory".
Definition EEXIST : Error := Err "EEXIST: file already exists".
Definition ENOTEMPTY : Error := Err "ENOTEMPTY: directory not empty".
Definition ERR_INVALID_ARG_TYPE : Error :=
  Err "The path argument must be of type string".

(** [fs.promises.access(p)]. *)
Definition fs_access (p : string) : Async unit :=
  called (FsAccess p);;
  node <- gets (λ w, files w !! p);;
  match node with
  | Some _ => ret tt
  | None => throw ENOENT
  end.

(** [fs.promises.unlink(p)]. *)
Definition fs_unlink (p : string) : Async unit :=
  called (FsUnlink p);;
  node <- gets (λ w, files w !! p);;
  match node with
  | Some (File _) => set_files (delete p)
  | Some Dir => throw EISDIR
  | None => throw ENOENT
  end.

(** [fs.promises.rm(p, { recursive: true, force: true })]. *)
Definition fs_rm (p : Value) : Async unit :=
  called (FsRm p);;
  match p with
  | Str d => set_files (Fs.remove_tree d)
  | _ => throw ERR_INVALID_ARG_TYPE
  end.

(** [fs.promises.mkdir(p, { recursive: true })]. *)
Definition fs_mkdir (p : Value) : Async unit :=
  called (FsMkdir p);;
  match p with
  | Str d =>
      node <- gets (λ w, files w !! d);;
      match node with
      | Some (File _) => throw EEXIST
      | _ => set_files (insert d Dir)
      end
  | _ => throw ERR_INVALID_ARG_TYPE
  end.

(** [fs.promises.readdir(p)]. *)
Definition fs_readdir (p : string) : Async (list string) :=
  called (FsReaddir p);;
  node <- gets (λ w, files w !! p);;
  match node with
  | Some Dir => gets (λ w, Fs.names p (files w))
  | Some (File _) => throw ENOTDIR
  | None => throw ENOENT
  end.

(** [fs.promises.lstat(p)]; the node stands for the [Stats] object. *)
Definition fs_lstat (p : string) : Async Node :=
  called (FsLstat p);;
  node <- gets (λ w, files w !! p);;
  match node with
  | Some n => ret n
  | None => throw ENOENT
  end.

(** [stats.isDirectory()]. *)
Definition isDirectory (stats : Node) : bool :=
  match stats with
  | Dir => true
  | File _ => false
  end.

(** [fs.promises.rename(a, b)]. *)
Definition fs_rename (a b : string) : Async unit :=
  called (FsRename a b);;
  src <- gets (λ w, files w !! a);;
  dst <- gets (λ w, files w !! b);;
  match src, dst with
  | None, _ => throw ENOENT
  | Some (File _), Some Dir => throw EISDIR
  | Some (File c), _ => set_files (λ fs, <[b := File c]> (delete a fs))
  | Some Dir, Some (File _) => throw ENOTDIR
  | Some Dir, _ =>
      below <- gets (λ w, Fs.names b (files w));;
      match below with
      | [] =>
          set_files (λ fs, Fs.graft b (Fs.subtree a fs)
                             (<[b := Dir]> (Fs.remove_tree a fs)))
      | _ :: _ => throw ENOTEMPTY
      end
  end.

(** [fs.copy(a, b)] of fs-extra. *)
Definition fs_copy (a : Value) (b : string) : Async unit :=
  called (FsCopy a b);;
  match a with
  | Str src =>
      from <- gets (λ w, files w !! src);;
      to <- gets (λ w, files w !! b);;
      match from, to with
      | None, _ => throw ENOENT
      | Some (File _), Some Dir =>
          throw (Err "Cannot overwrite directory with non-directory")
      | Some (File c), _ => set_files (insert b (File c))
      | Some Dir, Some (File _) =>
          throw (Err "Cannot overwrite non-directory with directory")
      | Some Dir, _ =>
          set_files (λ fs, Fs.graft b (Fs.subtree src fs) (<[b := Dir]> fs))
      end
  | _ => throw ERR_INVALID_ARG_TYPE
  end.

(** [fs.createWriteStream(p)]: the file is created or truncated.  The class
    puts no ['error'] listener on the stream, so a stream that cannot be
    opened raises an uncaught exception. *)
Definition fs_createWriteStream (p : string) : Async unit :=
  called (FsCreateWriteStream p);;
  node <- gets (λ w, files w !! p);;
  match node with
  | Some Dir => crash EISDIR
  | _ => set_files (insert p (File (Bytes "")))
  end.

(** An external call whose result the collaborator decides. *)
Definition external (c : Call) : Async bool :=
  failed <- faulted;;
  called c;;
  ret failed.

(** [archive.directory(dir, false).pipe(stream); archive.finalize()]: either
    the archiver emits ['error'], or the archive of [dir] is written to the
    stream's file [dest] and the stream closes. *)
Definition archiver_finalize (dir dest : string) : Async unit :=
  failed <- external (ArchiverFinalize dir dest);;
  if failed then throw (Err "archiver: stream error")
  else
    set_files (λ fs, <[dest := File (Zip (Fs.entry_of <$> Fs.subtree dir fs))]> fs).

(** [new AdmZip(zip).extractAllToAsync(dest, false, false, callback)] in
    the executor of a promise: an error of the reader, thrown or handed to
    the callback, rejects the promise, with whatever the reader has written
    by then left on disk. *)
Definition zip_extractAllTo (zip : string) (dest : Value) : Async unit :=
  called (ZipExtractAllTo zip dest);;
  result <- gets (λ w, unzip w (files w !! zip) dest (files w));;
  set_files (Fs.write result.2);;
  match result.1 with
  | Some err => throw err
  | None => ret tt
  end.

(** [store.sessionExists({ session })]. *)
Definition store_sessionExists (session : string) : Async bool :=
  failed <- external (StoreSessionExists session);;
  if failed then throw (Err "store.sessionExists rejected")
  else gets (λ w, bool_decide (is_Some (remote w !! session))).

(** [store.save({ session, path })]: the archive at [path] becomes the
    remote blob of [session]. *)
Definition store_save (session path : string) : Async unit :=
  failed <- external (StoreSave session path);;
  if failed then throw (Err "store.save rejected")
  else
    node <- gets (λ w, files w !! path);;
    match node with
    | Some (File c) => modify (λ w, with_remote (<[session := c]> (remote w)) w)
    | _ => throw ENOENT
    end.

(** [store.extract({ session, path })]: the remote blob is written to
    [path]. *)
Definition store_extract (session path : string) : Async unit :=
  failed <- external (StoreExtract session path);;
  if failed then throw (Err "store.extract rejected")
  else
    blob <- gets (λ w, remote w !! session);;
    match blob with
    | Some c => set_files (insert path (File c))
    | None => throw (Err "store.extract: no such session")
    end.

(** [store.delete({ session })]. *)
Definition store_delete (session : string) : Async unit :=
  failed <- external (StoreDelete session);;
  if failed then throw (Err "store.delete rejected")
  else modify (λ w, with_remote (delete session (remote w)) w).

(** [this.client.emit(ev)]. *)
Definition client_emit (ev : Event) : Async unit :=
  called (ClientEmit ev);;
  modify (λ w, with_emitted (emitted w ++ [ev]) w).

Definition console_error (args : list string) : Async unit :=
  modify (λ w, with_console (console w ++ [LogError args]) w).

Definition console_warn (args : list string) : Async unit :=
  modify (λ w, with_console (console w ++ [LogWarn args]) w).

(** [setInterval(callback, ms)], stored in [this.backupSync]. *)
Definition setInterval (ms : Z) : Async unit :=
  called (SetInterval ms);;
  modify (with_backupSync (Some ms)).

(** [clearInterval(this.backupSync)]. *)
Definition clearInterval : Async unit :=
  called ClearInterval;;
  modify (with_backupSync None).

(** ** The class *)

(** The two copies of the class in the repository. *)
Inductive Revision :=
| Named     (* src/authStrategies/RemoteAuth.js *)
| Unnamed.  (* the second copy *)

(** What the Node process offers: which optional packages [require] finds,
    and the working directory. *)
Record Process := {
  has_fs_extra : bool;
  has_adm_zip : bool;
  has_archiver : bool;
  cwd : list string;
}.

(** The module variables [fs], [AdmZip] and [archiver]: defined or not. *)
Record Modules := {
  fs : bool;
  AdmZip : bool;
  archiver : bool;
}.

(** The [try { var fs = require(..); .. } catch { .. }] block at the top of
    the file: the first [require] that throws leaves all three undefined. *)
Definition require_optional (p : Process) : Modules :=
  let undefined := {| fs := false; AdmZip := false; archiver := false |} in
  if has_fs_extra p then
    if has_adm_zip p then
      if has_archiver p then
        {| fs := true; AdmZip := true; archiver := true |}
      else undefined
    else undefined
  else undefined.

(** The remote store object handed to the constructor. *)
Inductive StoreHandle := StoreObject.

(** The argument of the constructor. *)
Record Options := {
  opt_clientId : Value;
  opt_dataPath : Value;
  opt_store : option StoreHandle;
  opt_backupSyncIntervalMs : option Z;
}.

(** The fields of an instance.  [userDataDir] and [sessionName] are
    [Undefined] until they are assigned. *)
Record RemoteAuth := {
  store : StoreHandle;
  clientId : Value;
  backupSyncIntervalMs : Z;
  dataPath : string;
  tempDir : string;
  requiredDirs : list string;
  userDataDir : Value;
  sessionName : Value;
}.

Inductive Constructed :=
| Threw (e : Error)
| Built (this : RemoteAuth).

Definition missing_dependencies (rev : Revision) : Error :=
  match rev with
  | Named =>
      Err "Optional Dependencies [fs-extra, adm-zip, archiver] are required to use RemoteAuth. Make sure to run npm install correctly and remove the --no-optional flag"
  | Unnamed =>
      Err "Optional Dependencies [fs-extra, adm-zip, archiver] are required to use RemoteAuth."
  end.

Definition invalid_clientId : Error :=
  Err "Invalid clientId. Only alphanumeric characters, underscores and hyphens are allowed.".

Definition invalid_interval (rev : Revision) : Error :=
  match rev with
  | Named =>
      Err "Invalid backupSyncIntervalMs. Accepts values starting from 60000ms {1 minute}."
  | Unnamed => Err "Invalid backupSyncIntervalMs. Must be >= 60000ms."
  end.

Definition store_required : Error := Err "Remote database store is required.".

(** [clientId && !idRegex.test(clientId)]. *)
Definition clientId_rejected (clientId : Value) : bool :=
  truthy clientId && negb (IdRegex.test (to_String clientId)).

(** [!backupSyncIntervalMs || backupSyncIntervalMs < 60000]. *)
Definition interval_rejected (ms : option Z) : bool :=
  match ms with
  | None => true
  | Some n => (n =? 0) || (n <? 60000)
  end.

(** [dataPath || './.wwebjs_auth/']. *)
Definition dataPath_or_default (dataPath : Value) : string :=
  if truthy dataPath then to_String dataPath else "./.wwebjs_auth/".

Definition constructor (rev : Revision) (proc : Process) (o : Options)
  : Constructed :=
  let m := require_optional proc in
  match rev with
  | Named =>
      if negb (fs m) && negb (AdmZip m) && negb (archiver m) then
        Threw (missing_dependencies Named)
      else if clientId_rejected (opt_clientId o) then Threw invalid_clientId
      else if interval_rejected (opt_backupSyncIntervalMs o) then
        Threw (invalid_interval Named)
      else
        match opt_store o with
        | None => Threw store_required
        | Some st =>
            let dataPath :=
              Path.resolve (cwd proc) (dataPath_or_default (opt_dataPath o)) in
            Built {|
              store := st;
              clientId := opt_clientId o;
              backupSyncIntervalMs := default 0 (opt_backupSyncIntervalMs o);
              dataPath := dataPath;
              tempDir :=
                dataPath +:+ "/wwebjs_temp_session_"
                  +:+ to_String (opt_clientId o);
              requiredDirs := ["Default"; "IndexedDB"; "Local Storage"];
              userDataDir := Undefined;
              sessionName := Undefined;
            |}
        end
  | Unnamed =>
      if negb (fs m) || negb (AdmZip m) || negb (archiver m) then
        Threw (missing_dependencies Unnamed)
      else
        let clientId :=
          if truthy (opt_clientId o)
             && IdRegex.test (to_String (opt_clientId o))
          then to_String (opt_clientId o) else "default" in
        if interval_rejected (opt_backupSyncIntervalMs o) then
          Threw (invalid_interval Unnamed)
        else
          match opt_store o with
          | None => Threw store_required
          | Some st =>
              let dataPath :=
                Path.resolve (cwd proc)
                  (dataPath_or_default (opt_dataPath o)) in
              let sessionName := "RemoteAuth-" +:+ clientId in
              Built {|
                store := st;
                clientId := Str clientId;
                backupSyncIntervalMs :=
                  default 0 (opt_backupSyncIntervalMs o);
                dataPath := dataPath;
                tempDir :=
                  Path.join dataPath ("wwebjs_temp_session_" +:+ clientId);
                requiredDirs := ["Default"; "IndexedDB"; "Local Storage"];
                userDataDir := Str (Path.join dataPath sessionName);
                sessionName := Str sessionName;
              |}
          end
  end.

(** The prefix the second copy puts on its console lines. *)
Definition tagged (rev : Revision) (line : string) : string :=
  match rev with
  | Named => line
  | Unnamed => "[RemoteAuth] " +:+ line
  end.

Definition isValidPath (p : string) : Async bool :=
  try_catch (fs_access p;; ret true) (λ _, ret false).

(** [setTimeout(resolve, ms)] behind a promise. *)
Definition delay (ms : Z) : Async unit := called (SetTimeout ms).

(** [this.requiredDirs.includes(element)]. *)
Definition includes (l : list string) (element : string) : bool :=
  existsb (String.eqb element) l.

Definition deleteMetadata (rev : Revision) (this : RemoteAuth) : Async unit :=
  let sessionDirs := [tempDir this; Path.join (tempDir this) "Default"] in
  for_of sessionDirs (λ dir,
    match rev with
    | Named =>
        sessionFiles <- fs_readdir dir;;
        for_of sessionFiles (λ element,
          if negb (includes (requiredDirs this) element) then
            let dirElement := Path.join dir element in
            stats <- fs_lstat dirElement;;
            if isDirectory stats then swallow (fs_rm (Str dirElement))
            else swallow (fs_unlink dirElement)
          else ret tt)
    | Unnamed =>
        valid <- isValidPath dir;;
        if negb valid then ret tt
        else
          sessionFiles <- or_else (fs_readdir dir) [];;
          for_of sessionFiles (λ element,
            if negb (includes (requiredDirs this) element) then
              let dirElement := Path.join dir element in
              stats <- or_else (st <- fs_lstat dirElement;; ret (Some st)) None;;
              match stats with
              | None => ret tt
              | Some st =>
                  if isDirectory st then swallow (fs_rm (Str dirElement))
                  else swallow (fs_unlink dirElement)
              end
            else ret tt)
    end).

(** The write stream is opened first; the promise the method returns settles
    when the archiver emits ['error'] (rejected) or when the stream has closed
    and the rename is done (resolved or rejected with the rename). *)
Definition compressSession (rev : Revision) (this : RemoteAuth) : Async unit :=
  let tempZipPath := to_String (sessionName this) +:+ ".zip.partial" in
  let finalZipPath := to_String (sessionName this) +:+ ".zip" in
  fs_createWriteStream tempZipPath;;
  swallow (fs_copy (userDataDir this) (tempDir this));;
  deleteMetadata rev this;;
  archiver_finalize (tempDir this) tempZipPath;;
  try_catch (fs_rename tempZipPath finalZipPath) (λ err, throw err).

Definition unCompressSession (rev : Revision) (this : RemoteAuth)
    (compressedSessionPath : string) : Async unit :=
  zip_extractAllTo compressedSessionPath (userDataDir this);;
  match rev with
  | Named => fs_unlink compressedSessionPath
  | Unnamed => swallow (fs_unlink compressedSessionPath)
  end.

(** The argument of [storeRemoteSession]. *)
Record StoreOptions := { emit : bool }.

(** [options && options.emit]. *)
Definition emit_requested (options : option StoreOptions) : bool :=
  match options with
  | Some o => emit o
  | None => false
  end.

Definition storeRemoteSession (rev : Revision) (this : RemoteAuth)
    (options : option StoreOptions) : Async unit :=
  let finalZipPath := to_String (sessionName this) +:+ ".zip" in
  let partialZipPath := to_String (sessionName this) +:+ ".zip.partial" in
  stale <- isValidPath partialZipPath;;
  (if stale then swallow (fs_unlink partialZipPath) else ret tt);;
  compressSession rev this;;
  created <- isValidPath finalZipPath;;
  (if created then
     try_catch
       (store_save (to_String (sessionName this)) finalZipPath)
       (λ error,
          match rev with
          | Named => console_error [message error]
          | Unnamed =>
              console_error
                ["[RemoteAuth] Failed to upload zip to remote store:";
                 message error]
          end)
   else
     match rev with
     | Named =>
         console_warn
           ["Zip file " +:+ finalZipPath +:+ " was not created successfully."]
     | Unnamed =>
         console_warn
           ["[RemoteAuth] Zip file " +:+ finalZipPath +:+ " was not created."]
     end);;
  swallow (fs_rm (Str (tempDir this)));;
  if emit_requested options then client_emit REMOTE_SESSION_SAVED else ret tt.

Definition extractRemoteSession (rev : Revision) (this : RemoteAuth)
  : Async unit :=
  let compressedSessionPath := to_String (sessionName this) +:+ ".zip" in
  exists_ <- store_sessionExists (to_String (sessionName this));;
  if exists_ then
    store_extract (to_String (sessionName this)) compressedSessionPath;;
    found <- isValidPath compressedSessionPath;;
    if found then
      try_catch
        (unCompressSession rev this compressedSessionPath)
        (λ error,
           console_error
             [tagged rev "Failed to unzip session:"; message error];;
           swallow (fs_unlink compressedSessionPath))
    else
      console_warn
        [tagged rev ("Zip file " +:+ compressedSessionPath
                       +:+ " not found after extraction.")]
  else fs_mkdir (userDataDir this).

Definition deleteRemoteSession (this : RemoteAuth) : Async unit :=
  sessionExists <- store_sessionExists (to_String (sessionName this));;
  if sessionExists then store_delete (to_String (sessionName this))
  else ret tt.

(** [beforeBrowserInitialized] assigns fields of [this] in the first copy;
    the instance it returns is [this] after the call. *)
Definition beforeBrowserInitialized (rev : Revision) (this : RemoteAuth)
  : Async RemoteAuth :=
  puppeteerOpts <- gets puppeteer_userDataDir;;
  match rev with
  | Named =>
      let sessionDirName :=
        if truthy (clientId this)
        then "RemoteAuth-" +:+ to_String (clientId this)
        else "RemoteAuth" in
      let dirPath := Path.join (dataPath this) sessionDirName in
      if truthy puppeteerOpts
         && negb (String.eqb (to_String puppeteerOpts) dirPath)
      then
        throw (Err "RemoteAuth is not compatible with a user-supplied userDataDir.")
      else
        let this' := {|
          store := store this;
          clientId := clientId this;
          backupSyncIntervalMs := backupSyncIntervalMs this;
          dataPath := dataPath this;
          tempDir := tempDir this;
          requiredDirs := requiredDirs this;
          userDataDir := Str dirPath;
          sessionName := Str sessionDirName;
        |} in
        extractRemoteSession rev this';;
        modify (with_puppeteer_userDataDir (Str dirPath));;
        ret this'
  | Unnamed =>
      if truthy puppeteerOpts
         && negb (String.eqb (to_String puppeteerOpts)
                    (to_String (userDataDir this)))
      then
        throw (Err "RemoteAuth is not compatible with a user-supplied userDataDir.")
      else
        extractRemoteSession rev this;;
        modify (with_puppeteer_userDataDir (userDataDir this));;
        ret this
  end.

Definition afterAuthReady (rev : Revision) (this : RemoteAuth) : Async unit :=
  sessionExists <- store_sessionExists (to_String (sessionName this));;
  (if negb sessionExists then
     delay 60000;;
     storeRemoteSession rev this (Some {| emit := true |})
   else ret tt);;
  setInterval (backupSyncIntervalMs this).



(** [fs.promises.access] rejects a path that is not a string, so
    [isValidPath] answers [false] for it. *)
Definition disconnect (this : RemoteAuth) : Async unit :=
  deleteRemoteSession this;;
  pathExists <- match userDataDir this with
                | Str p => isValidPath p
                | _ => ret false
                end;;
  (if pathExists then swallow (fs_rm (userDataDir this)) else ret tt);;
  clearInterval.

Definition logout (this : RemoteAuth) : Async unit := disconnect this.

Definition destroy : Async unit := clearInterval.

(** * The vocabulary of the properties *)

(** [stable R m]: running [m] takes every world to one related to it by
    [R], however [m] ends. *)
Definition stable {A} (R : relation World) (m : Async A) : Prop :=
  ∀ w, R w (m w).2.

(** The notifications sent so far are the same. *)
Definition same_emitted (w w' : World) : Prop := emitted w' = emitted w.

(** The remote store holds the same blobs. *)
Definition same_remote (w w' : World) : Prop := remote w' = remote w.

(** The calls made in between all satisfy [P]. *)
Definition calls (P : Call → Prop) (w w' : World) : Prop :=
  ∃ l, trace w' = trace w ++ l ∧ Forall P l.

(** A call that is not an upload. *)
Definition not_save (c : Call) : Prop :=
  match c with
  | StoreSave _ _ => False
  | _ => True
  end.

(** Any call at all. *)
Definition any_call (c : Call) : Prop := True.


(** [m] never brings the process down. *)
Definition calm {A} (m : Async A) : Prop := ∀ w e, (m w).1 ≠ Crashed e.

(** [m] always resolves. *)
Definition resolves {A} (m : Async A) : Prop := ∀ w, ∃ a, (m w).1 = Resolved a.

(** [storeRemoteSession] read as three phases: the stale [.partial] file is
    discarded, the archive is built, and the archive is uploaded and the
    staging directory removed. *)
Definition discardStalePartial (this : RemoteAuth) : Async unit :=
  let partialZipPath := to_String (sessionName this) +:+ ".zip.partial" in
  stale <- isValidPath partialZipPath;;
  if stale then swallow (fs_unlink partialZipPath) else ret tt.

Definition uploadAndCleanUp (rev : Revision) (this : RemoteAuth)
    (options : option StoreOptions) : Async unit :=
  let finalZipPath := to_String (sessionName this) +:+ ".zip" in
  created <- isValidPath finalZipPath;;
  (if created then
     try_catch
       (store_save (to_String (sessionName this)) finalZipPath)
       (λ error,
          match rev with
          | Named => console_error [message error]
          | Unnamed =>
              console_error
                ["[RemoteAuth] Failed to upload zip to remote store:";
                 message error]
          end)
   else
     match rev with
     | Named =>
         console_warn
           ["Zip file " +:+ finalZipPath +:+ " was not created successfully."]
     | Unnamed =>
         console_warn
           ["[RemoteAuth] Zip file " +:+ finalZipPath +:+ " was not created."]
     end);;
  swallow (fs_rm (Str (tempDir this)));;
  if emit_requested options then client_emit REMOTE_SESSION_SAVED else ret tt.

(** The fields of an instance once [beforeBrowserInitialized] has made its
    assignments (none in the second copy, whose constructor makes them). *)
Definition assigned (rev : Revision) (this : RemoteAuth) : RemoteAuth :=
  match rev with
  | Named =>
      let sessionDirName :=
        if truthy (clientId this)
        then "RemoteAuth-" +:+ to_String (clientId this)
        else "RemoteAuth" in
      {| store := store this;
         clientId := clientId this;
         backupSyncIntervalMs := backupSyncIntervalMs this;
         dataPath := dataPath this;
         tempDir := tempDir this;
         requiredDirs := requiredDirs this;
         userDataDir := Str (Path.join (dataPath this) sessionDirName);
         sessionName := Str sessionDirName |}
  | Unnamed => this
  end.

(** The identifier the second copy goes on with. *)
Definition effective_clientId (o : Options) : string :=
  if truthy (opt_clientId o) && IdRegex.test (to_String (opt_clientId o))
  then to_String (opt_clientId o) else "default".

(** The staging directory has an absolute path; the archive is named
    relative to the working directory of the process. *)
Definition laid_out (this : RemoteAuth) : Prop :=
  Path.isAbsolute (tempDir this) = true
  ∧ Path.isAbsolute (to_String (sessionName this) +:+ ".zip") = false.

(** Every optional package can be loaded. *)
Definition all_installed (proc : Process) : bool :=
  has_fs_extra proc && has_adm_zip proc && has_archiver proc.

(** The interval timer is as it was. *)
Definition same_timer (w w' : World) : Prop := backupSync w' = backupSync w.

(** Nothing changed on disk, and the timer is as it was. *)
Definition same_local (w w' : World) : Prop :=
  files w' = files w ∧ backupSync w' = backupSync w.

(** The entry at the path [q] is as it was. *)
Definition same_entry (q : string) (w w' : World) : Prop :=
  files w' !! q = files w !! q.

(** [s.includes(c)] for one character. *)
Fixpoint contains (c : ascii) (s : string) : bool :=
  match s with
  | EmptyString => false
  | String a rest => Ascii.eqb a c || contains c rest
  end.

(** What [deleteMetadata] does with one listed name of [dir]: the body of
    its inner loop. *)
Definition filterElement (rev : Revision) (this : RemoteAuth)
    (dir element : string) : Async unit :=
  match rev with
  | Named =>
      if negb (includes (requiredDirs this) element) then
        let dirElement := Path.join dir element in
        stats <- fs_lstat dirElement;;
        if isDirectory stats then swallow (fs_rm (Str dirElement))
        else swallow (fs_unlink dirElement)
      else ret tt
  | Unnamed =>
      if negb (includes (requiredDirs this) element) then
        let dirElement := Path.join dir element in
        stats <- or_else (st <- fs_lstat dirElement;; ret (Some st)) None;;
        match stats with
        | None => ret tt
        | Some st =>
            if isDirectory st then swallow (fs_rm (Str dirElement))
            else swallow (fs_unlink dirElement)
        end
      else ret tt
  end.

(** What [deleteMetadata] does with one of its two directories: the body of
    its outer loop. *)
Definition filterDirectory (rev : Revision) (this : RemoteAuth)
    (dir : string) : Async unit :=
  match rev with
  | Named =>
      sessionFiles <- fs_readdir dir;;
      for_of sessionFiles (filterElement Named this dir)
  | Unnamed =>
      valid <- isValidPath dir;;
      if negb valid then ret tt
      else
        sessionFiles <- or_else (fs_readdir dir) [];;
        for_of sessionFiles (filterElement Unnamed this dir)
  end.

(** What the filter may call on [dir] when it starts on the disk [fs]: it
    looks at [dir] itself (access, listing), and it looks at (lstat) and
    removes only what the listing of [dir] on [fs] holds under a name that
    is not required. *)
Definition pass_call (this : RemoteAuth) (dir : string)
    (fs : gmap string Node) (c : Call) : Prop :=
  match c with
  | FsAccess p | FsReaddir p => p = dir
  | FsLstat p | FsRm (Str p) | FsUnlink p =>
      ∃ element,
        element ∈ Fs.names dir fs
        ∧ includes (requiredDirs this) element = false
        ∧ p = Path.join dir element
  | _ => False
  end.

(** Nothing appears at the path [q]: absent before, absent after. *)
Definition stays_absent (q : string) (w w' : World) : Prop :=
  files w !! q = None → files w' !! q = None.


(** The error of [beforeBrowserInitialized]. *)
Definition incompatible_userDataDir : Error :=
  Err "RemoteAuth is not compatible with a user-supplied userDataDir.".

(** ** Concrete inputs *)

Module Examples.

Definition proc : Process :=
  {| has_fs_extra := true; has_adm_zip := true; has_archiver := true;
     cwd := ["app"] |}.

Definition options (id : Value) : Options :=
  {| opt_clientId := id; opt_dataPath := Undefined;
     opt_store := Some StoreObject; opt_backupSyncIntervalMs := Some 60000 |}.

(** The instance each copy builds for the client identifier ["bot"]. *)
Definition built (rev : Revision) : RemoteAuth :=
  {| store := StoreObject;
     clientId := Str "bot";
     backupSyncIntervalMs := 60000;
     dataPath := "/app/.wwebjs_auth";
     tempDir := "/app/.wwebjs_auth/wwebjs_temp_session_bot";
     requiredDirs := ["Default"; "IndexedDB"; "Local Storage"];
     userDataDir :=
       match rev with
       | Named => Undefined
       | Unnamed => Str "/app/.wwebjs_auth/RemoteAuth-bot"
       end;
     sessionName :=
       match rev with
       | Named => Undefined
       | Unnamed => Str "RemoteAuth-bot"
       end |}.

(** The same instance after [beforeBrowserInitialized]. *)
Definition bot (rev : Revision) : RemoteAuth := assigned rev (built rev).

(** A browser profile in the working directory. *)
Definition profile : gmap string Node :=
  list_to_map
    [("/app/.wwebjs_auth/RemoteAuth-bot", Dir);
     ("/app/.wwebjs_auth/RemoteAuth-bot/Default", Dir);
     ("/app/.wwebjs_auth/RemoteAuth-bot/Default/IndexedDB", Dir);
     ("/app/.wwebjs_auth/RemoteAuth-bot/Default/IndexedDB/keys",
      File (Bytes "k"));
     ("/app/.wwebjs_auth/RemoteAuth-bot/lockfile", File (Bytes "l"))].

(** A working directory that was just created: no [Default] in it. *)
Definition fresh_profile : gmap string Node :=
  {[ "/app/.wwebjs_auth/RemoteAuth-bot" := Dir ]}.

(** A zip reader for the runs below.  It refuses what is not an archive
    before it writes anything, and it writes the entries of an archive below
    the destination. *)
Definition not_an_archive : Error :=
  Err "ADM-ZIP: Invalid or unsupported zip format. No END header found".

Definition placed (dest : string) (e : Entry) : string * Node :=
  match e with
  | DirEntry rel => (dest +:+ "/" +:+ rel, Dir)
  | FileEntry rel c => (dest +:+ "/" +:+ rel, File c)
  end.

Definition reader (node : option Node) (dest : Value)
    (fs : gmap string Node) : option Error * list (string * Node) :=
  match node, dest with
  | Some (File (Zip entries)), Str d => (None, placed d <$> entries)
  | Some (File (Zip _)), _ => (Some ERR_INVALID_ARG_TYPE, [])
  | _, _ => (Some not_an_archive, [])
  end.

(** A reader that fails on every archive after it has made the destination
    and written one file below it. *)
Definition failing_reader (node : option Node) (dest : Value)
    (fs : gmap string Node) : option Error * list (string * Node) :=
  (Some (Err "ADM-ZIP: Unable to write file"),
   match dest with
   | Str d => [(d, Dir); (d +:+ "/First Run", File (Bytes ""))]
   | _ => []
   end).

Definition with_unzip
    (r : option Node → Value → gmap string Node
         → option Error * list (string * Node))
    (w : World) : World :=
  {| files := files w; remote := remote w; emitted := emitted w;
     console := console w; trace := trace w; backupSync := backupSync w;
     puppeteer_userDataDir := puppeteer_userDataDir w; faults := faults w;
     unzip := r |}.

Definition world (fs : gmap string Node) (blobs : gmap string Content)
    (f : nat → bool) : World :=
  {| files := fs; remote := blobs; emitted := []; console := [];
     trace := []; backupSync := None; puppeteer_userDataDir := Undefined;
     faults := f; unzip := reader |}.

(** Collaborators that never fail, that always fail, and that fail from the
    [n]-th call on. *)
Definition never : nat → bool := λ _, false.
Definition always : nat → bool := λ _, true.
Definition from (n : nat) : nat → bool := λ k, (n <=? k)%nat.

(** A process in which [archiver] is not installed. *)
Definition without_archiver : Process :=
  {| has_fs_extra := true; has_adm_zip := true; has_archiver := false;
     cwd := ["app"] |}.

(** A remote store whose blob for the session is not a zip archive. *)
Definition garbled : World :=
  world ∅ {[ "RemoteAuth-bot" := Bytes "not a zip" ]} never.

(** A profile next to the [.partial] file of an interrupted backup. *)
Definition interrupted : World :=
  world (<["RemoteAuth-bot.zip.partial" := File (Bytes "half")]> profile)
    ∅ never.

(** The argument of the constructor, field by field. *)
Definition configured (id : Value) (ms : option Z)
    (st : option StoreHandle) : Options :=
  {| opt_clientId := id; opt_dataPath := Undefined;
     opt_store := st; opt_backupSyncIntervalMs := ms |}.

(** A client whose browser options name a directory of their own. *)
Definition foreign : World :=
  with_puppeteer_userDataDir (Str "/tmp/chrome") (world ∅ ∅ never).

(** A store that holds an archive of the session. *)
Definition stored : gmap string Content :=
  {[ "RemoteAuth-bot" := Zip [DirEntry "Default"] ]}.

(** A copy of the profile in the staging directory, as the filter finds
    it. *)
Definition staged : World :=
  world
    (list_to_map
       [("/app/.wwebjs_auth/wwebjs_temp_session_bot", Dir);
        ("/app/.wwebjs_auth/wwebjs_temp_session_bot/Default", Dir);
        ("/app/.wwebjs_auth/wwebjs_temp_session_bot/Default/IndexedDB", Dir);
        ("/app/.wwebjs_auth/wwebjs_temp_session_bot/Default/Cache", Dir);
        ("/app/.wwebjs_auth/wwebjs_temp_session_bot/Default/Cache/data",
         File (Bytes "d"));
        ("/app/.wwebjs_auth/wwebjs_temp_session_bot/lockfile",
         File (Bytes "l"))])
    ∅ never.

(** The same store in front of a reader that fails part-way. *)
Definition half_extracted : World :=
  with_unzip failing_reader (world ∅ stored never).


End Examples.

Import Examples.

(** * Properties *)

(** ** What a method leaves alone *)

Section Stable.
Context (R : relation World) `{!PreOrder R}.

Lemma stable_ret {A} (a : A) : stable R (ret a).
Proof. intros w. reflexivity. Qed.

Lemma stable_throw {A} e : stable R (@throw A e).
Proof. intros w. reflexivity. Qed.

Lemma stable_crash {A} e : stable R (@crash A e).
Proof. intros w. reflexivity. Qed.

Lemma stable_gets {A} (f : World → A) : stable R (gets f).
Proof. intros w. reflexivity. Qed.

Lemma stable_modify f : (∀ w, R w (f w)) → stable R (modify f).
Proof. intros H w. apply H. Qed.

Lemma stable_bind {A B} (m : Async A) (k : A → Async B) :
  stable R m → (∀ a, stable R (k a)) → stable R (bind m k).
Proof.
  intros Hm Hk w. unfold bind. specialize (Hm w).
  destruct (m w) as [[a|e|e] w1]; simpl in *; auto.
  etransitivity; [exact Hm | apply Hk].
Qed.

Lemma stable_try_catch {A} (m : Async A) (h : Error → Async A) :
  stable R m → (∀ e, stable R (h e)) → stable R (try_catch m h).
Proof.
  intros Hm Hh w. unfold try_catch. specialize (Hm w).
  destruct (m w) as [[a|e|e] w1]; simpl in *; auto.
  etransitivity; [exact Hm | apply Hh].
Qed.

Lemma stable_for_of {A} (l : list A) (body : A → Async unit) :
  (∀ x, stable R (body x)) → stable R (for_of l body).
Proof.
  intros Hb. induction l as [|x l IH]; simpl.
  - apply stable_ret.
  - apply stable_bind; auto.
Qed.
End Stable.

Create HintDb collaborators.

#[local] Hint Unfold
  fs_access fs_unlink fs_rm fs_mkdir fs_readdir fs_lstat fs_rename fs_copy
  fs_createWriteStream archiver_finalize zip_extractAllTo
  store_sessionExists store_save store_extract store_delete external faulted
  console_error console_warn setInterval clearInterval delay set_files
  isValidPath swallow or_else : collaborators.

(** Take a method apart down to its [modify] and [called] steps. *)
Ltac stable_step :=
  lazymatch goal with
  | |- stable _ (bind _ _) =>
      apply stable_bind; [ typeclasses eauto | | intros ? ]
  | |- stable _ (try_catch _ _) =>
      apply stable_try_catch; [ typeclasses eauto | | intros ? ]
  | |- stable _ (for_of _ _) =>
      apply stable_for_of; [ typeclasses eauto | intros ? ]
  | |- stable _ (ret _) => apply stable_ret; typeclasses eauto
  | |- stable _ (throw _) => apply stable_throw; typeclasses eauto
  | |- stable _ (crash _) => apply stable_crash; typeclasses eauto
  | |- stable _ (gets _) => apply stable_gets; typeclasses eauto
  | |- stable _ (match ?x with _ => _ end) => destruct x
  | |- stable _ _ => progress autounfold with collaborators
  end.

Ltac stable_steps := repeat stable_step.

#[local] Instance same_emitted_preorder : PreOrder same_emitted.
Proof.
  split; unfold same_emitted.
  - intros w. reflexivity.
  - intros w1 w2 w3 -> ->. reflexivity.
Qed.

#[local] Instance same_remote_preorder : PreOrder same_remote.
Proof.
  split; unfold same_remote.
  - intros w. reflexivity.
  - intros w1 w2 w3 -> ->. reflexivity.
Qed.

#[local] Instance calls_preorder P : PreOrder (calls P).
Proof.
  split.
  - intros w. exists []. rewrite app_nil_r. auto.
  - intros w1 w2 w3 (l1 & E1 & F1) (l2 & E2 & F2).
    exists (l1 ++ l2). rewrite E2, E1, app_assoc. split; [done|].
    apply Forall_app; auto.
Qed.

Lemma bind_resolved {A B} (m : Async A) (k : A → Async B) w a w' :
  m w = (Resolved a, w') → bind m k w = k a w'.
Proof. intros H. unfold bind. rewrite H. reflexivity. Qed.

Lemma bind_rejected {A B} (m : Async A) (k : A → Async B) w e w' :
  m w = (Rejected e, w') → bind m k w = (Rejected e, w').
Proof. intros H. unfold bind. rewrite H. reflexivity. Qed.

Ltac stable_emitted :=
  stable_steps;
  solve [ apply stable_modify; intros; reflexivity
        | unfold called; apply stable_modify; intros; reflexivity ].

(** ** The saved notification *)







Lemma setInterval_stable_emitted ms : stable same_emitted (setInterval ms).
Proof. stable_emitted. Qed.

Lemma delay_stable_emitted ms : stable same_emitted (delay ms).
Proof. stable_emitted. Qed.


(** ** The phases of a backup cycle *)

Lemma bind_assoc {A B C} (m : Async A) (k : A → Async B) (h : B → Async C) w :
  bind (bind m k) h w = bind m (λ x, bind (k x) h) w.
Proof. unfold bind. destruct (m w) as [[a|e|e] w1]; reflexivity. Qed.

Lemma storeRemoteSession_phases rev this options w :
  storeRemoteSession rev this options w
  = (discardStalePartial this;;
     compressSession rev this;;
     uploadAndCleanUp rev this options) w.
Proof. unfold discardStalePartial. rewrite bind_assoc. reflexivity. Qed.

Lemma isValidPath_spec p w :
  isValidPath p w
  = (Resolved (bool_decide (is_Some (files w !! p))),
     with_trace (trace w ++ [FsAccess p]) w).
Proof.
  unfold isValidPath, try_catch, fs_access, bind, called, modify, gets, ret,
    throw; simpl.
  destruct (files w !! p) as [n|]; reflexivity.
Qed.

Lemma discardStalePartial_resolves this w :
  (discardStalePartial this w).1 = Resolved tt.
Proof.
  unfold discardStalePartial.
  rewrite (bind_resolved _ _ _ _ _ (isValidPath_spec _ w)).
  case_bool_decide; [ | reflexivity ].
  unfold swallow, try_catch, fs_unlink, bind, called, modify, gets, ret,
    throw, set_files; simpl.
  destruct (files w !! _) as [[c|]|]; reflexivity.
Qed.

Ltac stable_remote :=
  stable_steps;
  solve [ apply stable_modify; intros; reflexivity
        | unfold called; apply stable_modify; intros; reflexivity ].

Ltac stable_calls :=
  stable_steps;
  solve [ apply stable_modify; intros ?; exists []; simpl;
          rewrite app_nil_r; split; [reflexivity | constructor]
        | unfold called; apply stable_modify; intros ?; eexists [_]; simpl;
          split; [reflexivity | repeat constructor] ].

Lemma discardStalePartial_same_remote this :
  stable same_remote (discardStalePartial this).
Proof. unfold discardStalePartial. stable_remote. Qed.

Lemma compressSession_same_remote rev this :
  stable same_remote (compressSession rev this).
Proof. unfold compressSession, deleteMetadata. stable_remote. Qed.

Lemma discardStalePartial_no_save this :
  stable (calls not_save) (discardStalePartial this).
Proof. unfold discardStalePartial. stable_calls. Qed.

Lemma compressSession_no_save rev this :
  stable (calls not_save) (compressSession rev this).
Proof. unfold compressSession, deleteMetadata. stable_calls. Qed.

(** ** Archive build errors *)

(** C3. When building the archive fails in a backup cycle, that is when
    [compressSession] rejects (the archiver's stream error, or the failed
    rename of the [.partial] file), [storeRemoteSession] rejects with the
    same error, no call to [store.save] was made in the cycle, and the
    remote store holds what it held before. *)
Theorem archive_failure_rejects_without_upload rev this options w e w1 :
  compressSession rev this (discardStalePartial this w).2 = (Rejected e, w1) →
  storeRemoteSession rev this options w = (Rejected e, w1)
  ∧ remote w1 = remote w
  ∧ ∃ made, trace w1 = trace w ++ made ∧ Forall not_save made.
Proof.
  intros Hbuild.
  pose proof (discardStalePartial_resolves this w) as Hd.
  destruct (discardStalePartial this w) as [o w0] eqn:D. simpl in *. subst o.
  split; [ | split ].
  - rewrite storeRemoteSession_phases.
    rewrite (bind_resolved _ _ _ _ _ D).
    apply bind_rejected. exact Hbuild.
  - pose proof (discardStalePartial_same_remote this w) as R0.
    pose proof (compressSession_same_remote rev this w0) as R1.
    rewrite D in R0. rewrite Hbuild in R1. unfold same_remote in *.
    simpl in *. congruence.
  - pose proof (discardStalePartial_no_save this w) as C0.
    pose proof (compressSession_no_save rev this w0) as C1.
    rewrite D in C0. rewrite Hbuild in C1. simpl in *.
    exact (transitivity C0 C1).
Qed.

(** ** Where the archive and the staging directory live *)

Lemma outside_absolute d p :
  Path.isAbsolute d = true → Path.isAbsolute p = false →
  Fs.at_or_inside d p = false.
Proof.
  unfold Fs.at_or_inside, Fs.inside.
  destruct d as [|a d]; [discriminate|]. simpl. intros Ha.
  apply Ascii.eqb_eq in Ha. subst a.
  destruct p as [|c p]; [reflexivity|]. cbn -[Ascii.eqb]. intros Hc.
  rewrite (Ascii.eqb_sym "/" c), Hc. reflexivity.
Qed.

Lemma remove_tree_outside d p (fs : gmap string Node) :
  Fs.at_or_inside d p = false → Fs.remove_tree d fs !! p = fs !! p.
Proof.
  intros Hout. unfold Fs.remove_tree. rewrite map_lookup_filter.
  destruct (fs !! p) as [n|]; simpl; [|reflexivity].
  rewrite option_guard_True by exact Hout. reflexivity.
Qed.

Lemma remove_tree_root d (fs : gmap string Node) :
  Fs.remove_tree d fs !! d = None.
Proof.
  unfold Fs.remove_tree. apply map_lookup_filter_None_2.
  destruct (fs !! d) as [n|]; [right|left; reflexivity].
  intros x _. simpl. unfold Fs.at_or_inside.
  rewrite String.eqb_refl. discriminate.
Qed.

Lemma beforeBrowserInitialized_assigned rev this w this' w' :
  beforeBrowserInitialized rev this w = (Resolved this', w') →
  this' = assigned rev this.
Proof.
  unfold beforeBrowserInitialized, assigned, bind at 1, gets.
  destruct rev; simpl.
  - destruct (_ && _); [discriminate|].
    unfold bind, modify, ret.
    destruct (extractRemoteSession _ _ _) as [[[]|?|?] ?]; congruence.
  - destruct (_ && _); [discriminate|].
    unfold bind, modify, ret.
    destruct (extractRemoteSession _ _ _) as [[[]|?|?] ?]; congruence.
Qed.

Lemma join_absolute a b :
  Path.isAbsolute a = true → Path.isAbsolute (Path.join a b) = true.
Proof.
  destruct a as [|c a]; [discriminate|]. simpl. intros Hc.
  unfold Path.join.
  destruct b as [|c' b]; unfold Path.normalize; simpl; rewrite Hc; simpl.
  - destruct (Path.normalizeString _ _); [reflexivity|].
    destruct (Path.ends_with_slash _); reflexivity.
  - destruct (Path.normalizeString _ _); [reflexivity|].
    destruct (Path.ends_with_slash _); reflexivity.
Qed.

(** What the constructor of each copy stores in the instance it builds. *)
Lemma constructor_Named_fields proc o this :
  constructor Named proc o = Built this →
  clientId this = opt_clientId o
  ∧ dataPath this
    = Path.resolve (cwd proc) (dataPath_or_default (opt_dataPath o))
  ∧ tempDir this
    = dataPath this +:+ "/wwebjs_temp_session_" +:+ to_String (opt_clientId o)
  ∧ sessionName this = Undefined
  ∧ userDataDir this = Undefined.
Proof.
  unfold constructor.
  destruct (_ && _); [discriminate|].
  destruct (clientId_rejected _); [discriminate|].
  destruct (interval_rejected _); [discriminate|].
  destruct (opt_store o); [|discriminate].
  intros H. inversion H. repeat split; reflexivity.
Qed.

Lemma constructor_Unnamed_fields proc o this :
  constructor Unnamed proc o = Built this →
  clientId this = Str (effective_clientId o)
  ∧ dataPath this
    = Path.resolve (cwd proc) (dataPath_or_default (opt_dataPath o))
  ∧ tempDir this
    = Path.join (dataPath this)
        ("wwebjs_temp_session_" +:+ effective_clientId o)
  ∧ sessionName this = Str ("RemoteAuth-" +:+ effective_clientId o)
  ∧ userDataDir this
    = Str (Path.join (dataPath this) ("RemoteAuth-" +:+ effective_clientId o)).
Proof.
  unfold constructor.
  destruct (_ || _); [discriminate|].
  destruct (interval_rejected _); [discriminate|].
  destruct (opt_store o); [|discriminate].
  intros H. inversion H. repeat split; reflexivity.
Qed.

Lemma resolve_absolute cwd p : Path.isAbsolute (Path.resolve cwd p) = true.
Proof. reflexivity. Qed.

Lemma constructor_laid_out rev proc o this :
  constructor rev proc o = Built this →
  laid_out this ∧ laid_out (assigned rev this).
Proof.
  destruct rev; intros H.
  - apply constructor_Named_fields in H as (Hc & Hd & Ht & Hs & _).
    unfold laid_out, assigned. cbn [tempDir sessionName to_String].
    rewrite Ht, Hd, Hs.
    destruct (truthy (clientId this)); repeat split; reflexivity.
  - apply constructor_Unnamed_fields in H as (Hc & Hd & Ht & Hs & _).
    unfold laid_out, assigned. rewrite Ht, Hd, Hs.
    cbn [to_String].
    repeat split; try reflexivity.
    all: apply join_absolute; apply resolve_absolute.
Qed.

Lemma archive_outside_staging this :
  laid_out this →
  Fs.at_or_inside (tempDir this) (to_String (sessionName this) +:+ ".zip")
  = false.
Proof. intros [Ht Hz]. apply outside_absolute; assumption. Qed.

(** ** Single calls *)

Lemma fs_unlink_file p c w :
  files w !! p = Some (File c) →
  fs_unlink p w
  = (Resolved tt,
     with_files (delete p (files w)) (with_trace (trace w ++ [FsUnlink p]) w)).
Proof.
  intros H. unfold fs_unlink, bind, called, modify, gets, set_files; simpl.
  rewrite H. reflexivity.
Qed.

Lemma zip_extractAllTo_spec zip dest w :
  zip_extractAllTo zip dest w
  = (match (unzip w (files w !! zip) dest (files w)).1 with
     | Some err => Rejected err
     | None => Resolved tt
     end,
     with_files
       (Fs.write (unzip w (files w !! zip) dest (files w)).2 (files w))
       (with_trace (trace w ++ [ZipExtractAllTo zip dest]) w)).
Proof.
  unfold zip_extractAllTo, bind, called, modify, gets, set_files, throw, ret.
  cbv beta.
  change (unzip (with_trace (trace w ++ [ZipExtractAllTo zip dest]) w))
    with (unzip w).
  change (files (with_trace (trace w ++ [ZipExtractAllTo zip dest]) w))
    with (files w).
  destruct (unzip w (files w !! zip) dest (files w)) as [[err|] written];
    reflexivity.
Qed.

(** The swallowed unlink takes a regular file away and leaves everything
    else, a directory at the path included. *)
Lemma swallowed_unlink_spec p w :
  swallow (fs_unlink p) w
  = (Resolved tt,
     with_files
       (match files w !! p with
        | Some (File _) => delete p (files w)
        | _ => files w
        end)
       (with_trace (trace w ++ [FsUnlink p]) w)).
Proof.
  unfold swallow, try_catch, fs_unlink, bind, called, modify, gets, set_files,
    throw, ret. cbv beta.
  change (files (with_trace (trace w ++ [FsUnlink p]) w)) with (files w).
  destruct (files w !! p) as [[c|]|]; try reflexivity.
Qed.

Lemma store_extract_resolved s p w w1 :
  store_extract s p w = (Resolved tt, w1) →
  ∃ c, files w1 !! p = Some (File c).
Proof.
  unfold store_extract, external, faulted, set_files, bind, called, modify,
    gets, throw, ret. cbv beta.
  destruct (faults w _); [discriminate|].
  destruct (remote _ !! s) as [c|]; [|discriminate].
  intros [= <-]. exists c. apply lookup_insert_eq.
Qed.

Lemma store_save_rejected s p w e w' :
  store_save s p w = (Rejected e, w') →
  w' = with_trace (trace w ++ [StoreSave s p]) w.
Proof.
  unfold store_save, external, faulted, bind, called, modify, gets, throw;
    simpl.
  destruct (faults w _); [intros [= _ <-]; reflexivity|].
  change (files (with_trace (trace w ++ [StoreSave s p]) w)) with (files w).
  destruct (files w !! p) as [[c|]|]; intros H; inversion H; reflexivity.
Qed.

Lemma fs_rm_spec d w :
  fs_rm (Str d) w
  = (Resolved tt,
     with_files (Fs.remove_tree d (files w))
       (with_trace (trace w ++ [FsRm (Str d)]) w)).
Proof. reflexivity. Qed.

(** ** Restoring from an unreadable archive *)

(** C2 (as amended). When the store reports that the session exists, the
    archive is fetched and the zip reader fails on it, with whatever error
    and after whatever it has written, [extractRemoteSession] resolves: the
    error is caught and logged with its message, and the archive file is
    unlinked.  The class does not initialize the working directory: after
    the failure it makes no call but the unlink (no [mkdir], no [rm]), so
    every path but the archive's is as the reader left it. *)
Theorem unreadable_archive_is_dropped rev this w w1 w2 err written :
  let session := to_String (sessionName this) in
  let zip := session +:+ ".zip" in
  store_sessionExists session w = (Resolved true, w1) →
  store_extract session zip w1 = (Resolved tt, w2) →
  unzip w2 (files w2 !! zip) (userDataDir this) (files w2)
  = (Some err, written) →
  ∃ w',
    extractRemoteSession rev this w = (Resolved tt, w')
    ∧ files w' !! zip
      = match Fs.write written (files w2) !! zip with
        | Some Dir => Some Dir
        | _ => None
        end
    ∧ (∀ p, p ≠ zip → files w' !! p = Fs.write written (files w2) !! p)
    ∧ trace w'
      = trace w2 ++ [FsAccess zip; ZipExtractAllTo zip (userDataDir this);
                     FsUnlink zip]
    ∧ console w'
      = console w2
          ++ [LogError [tagged rev "Failed to unzip session:"; message err]]
    ∧ remote w' = remote w2.
Proof.
  intros session zip Hexists Hfetch Hread.
  destruct (store_extract_resolved _ _ _ _ Hfetch) as [c Hc].
  unfold extractRemoteSession. fold session. fold zip.
  rewrite (bind_resolved _ _ _ _ _ Hexists).
  rewrite (bind_resolved _ _ _ _ _ Hfetch).
  rewrite (bind_resolved _ _ _ _ _ (isValidPath_spec zip w2)).
  rewrite bool_decide_eq_true_2 by (rewrite Hc; eauto).
  set (w3 := with_trace (trace w2 ++ [FsAccess zip]) w2).
  set (fs' := Fs.write written (files w2)).
  assert (zip_extractAllTo zip (userDataDir this) w3
          = (Rejected err,
             with_files fs'
               (with_trace (trace w3 ++ [ZipExtractAllTo zip (userDataDir this)])
                  w3))) as Hzip.
  { rewrite zip_extractAllTo_spec.
    change (unzip w3) with (unzip w2). change (files w3) with (files w2).
    rewrite Hread. reflexivity. }
  unfold try_catch at 1, unCompressSession.
  rewrite (bind_rejected _ _ _ _ _ Hzip).
  set (w4 := with_files fs' _).
  unfold console_error. unfold bind at 1, modify at 1.
  set (w5 := with_console _ w4).
  rewrite swallowed_unlink_spec.
  change (files w5) with fs'.
  eexists. split; [reflexivity|]. simpl.
  split; [|split; [|split; [|split; [reflexivity|reflexivity]]]].
  - destruct (fs' !! zip) as [[c'|]|] eqn:E;
      [apply lookup_delete_eq | exact E | exact E].
  - intros p Hp. destruct (fs' !! zip) as [[c'|]|]; try reflexivity.
    apply lookup_delete_ne. congruence.
  - rewrite <- !app_assoc. reflexivity.
Qed.

(** ** The stale [.partial] file *)

Lemma fs_createWriteStream_fresh p w :
  files w !! p = None →
  fs_createWriteStream p w
  = (Resolved tt,
     with_files (<[p := File (Bytes "")]> (files w))
       (with_trace (trace w ++ [FsCreateWriteStream p]) w)).
Proof.
  intros H.
  unfold fs_createWriteStream, bind, called, modify, gets, set_files.
  change (files (with_trace (trace w ++ [FsCreateWriteStream p]) w))
    with (files w).
  rewrite H. reflexivity.
Qed.

Lemma uploadAndCleanUp_grows rev this options :
  stable (calls any_call) (uploadAndCleanUp rev this options).
Proof.
  unfold uploadAndCleanUp, emit_requested, client_emit.
  destruct options as [[[]]|]; stable_calls.
Qed.

(** C7. When a backup cycle starts and a [.partial] file of an earlier run
    is there, the cycle first checks for it and unlinks it; the rest of the
    cycle (building the archive, uploading it) runs in the world without
    that file, and the next call it makes opens the write stream of the new
    [.partial] file. *)
Theorem stale_partial_deleted_first rev this options w c :
  let partial := to_String (sessionName this) +:+ ".zip.partial" in
  files w !! partial = Some (File c) →
  ∃ w0,
    discardStalePartial this w = (Resolved tt, w0)
    ∧ files w0 = delete partial (files w)
    ∧ files w0 !! partial = None
    ∧ trace w0 = trace w ++ [FsAccess partial; FsUnlink partial]
    ∧ storeRemoteSession rev this options w
      = (compressSession rev this;; uploadAndCleanUp rev this options) w0
    ∧ ∃ rest,
        trace (storeRemoteSession rev this options w).2
        = trace w0 ++ FsCreateWriteStream partial :: rest.
Proof.
  intros partial Hstale.
  assert (discardStalePartial this w
          = (Resolved tt,
             with_files (delete partial (files w))
               (with_trace ((trace w ++ [FsAccess partial])
                              ++ [FsUnlink partial])
                  (with_trace (trace w ++ [FsAccess partial]) w)))) as Hd.
  { unfold discardStalePartial. fold partial.
    rewrite (bind_resolved _ _ _ _ _ (isValidPath_spec partial w)).
    rewrite bool_decide_eq_true_2 by (rewrite Hstale; eauto).
    unfold swallow, try_catch.
    rewrite (fs_unlink_file partial c) by exact Hstale.
    reflexivity. }
  eexists. split; [exact Hd|].
  assert (∀ w0, discardStalePartial this w = (Resolved tt, w0) →
                storeRemoteSession rev this options w
                = (compressSession rev this;;
                   uploadAndCleanUp rev this options) w0) as Hrest.
  { intros w0 H0. rewrite storeRemoteSession_phases.
    rewrite (bind_resolved _ _ _ _ _ H0). reflexivity. }
  split; [reflexivity|].
  split; [apply lookup_delete_eq|].
  split; [simpl; rewrite <- app_assoc; reflexivity|].
  split; [apply Hrest; exact Hd|].
  rewrite (Hrest _ Hd).
  set (w0 := with_files _ _).
  assert (files w0 !! partial = None) as Hgone by apply lookup_delete_eq.
  unfold compressSession. fold partial.
  rewrite bind_assoc.
  rewrite (bind_resolved _ _ _ _ _ (fs_createWriteStream_fresh partial w0 Hgone)).
  match goal with
  | |- ∃ rest, trace (?m ?w1).2 = _ =>
      assert (stable (calls any_call) m) as Hgrow
  end.
  { unfold deleteMetadata.
    apply stable_bind; [typeclasses eauto| |intros ?; apply uploadAndCleanUp_grows].
    stable_calls. }
  destruct (Hgrow (with_files (<[partial := File (Bytes "")]> (files w0))
                     (with_trace (trace w0 ++ [FsCreateWriteStream partial]) w0)))
    as (rest & Hrest' & _).
  exists rest. rewrite Hrest'. simpl. rewrite <- app_assoc. reflexivity.
Qed.

(** ** Upload errors *)

Lemma bind_resolved_inv {A B} (m : Async A) (k : A → Async B) w b w' :
  bind m k w = (Resolved b, w') →
  ∃ a w1, m w = (Resolved a, w1) ∧ k a w1 = (Resolved b, w').
Proof.
  unfold bind. destruct (m w) as [[a|e|e] w1]; try discriminate.
  intros H. exists a, w1. auto.
Qed.

Lemma append_not_self (b s : string) : b +:+ s = b → s = "".
Proof.
  induction b as [|c b IH]; simpl; [auto|].
  intros [= H]. auto.
Qed.

Lemma graft_lookup_root b entries (fs : gmap string Node) :
  Fs.graft b entries fs !! b = fs !! b.
Proof.
  unfold Fs.graft. induction entries as [|[rel n] l IH]; simpl; [reflexivity|].
  rewrite lookup_insert_ne; [exact IH|].
  intros H. apply append_not_self in H. discriminate.
Qed.

Lemma fs_rename_resolved_creates a b w w' :
  fs_rename a b w = (Resolved tt, w') → is_Some (files w' !! b).
Proof.
  unfold fs_rename, set_files, bind, called, modify, gets, throw.
  cbv beta.
  change (files (with_trace (trace w ++ [FsRename a b]) w)) with (files w).
  destruct (files w !! a) as [[c|]|]; [| |discriminate].
  - destruct (files w !! b) as [[c'|]|]; try discriminate.
    all: cbv beta; intros [= <-]; simpl; rewrite lookup_insert_eq; eauto.
  - destruct (files w !! b) as [[c'|]|]; try discriminate.
    all: destruct (Fs.names b _); try discriminate.
    all: cbv beta; intros [= <-]; simpl;
      rewrite graft_lookup_root, lookup_insert_eq; eauto.
Qed.

Lemma compressSession_resolved_creates rev this w w1 :
  compressSession rev this w = (Resolved tt, w1) →
  is_Some (files w1 !! (to_String (sessionName this) +:+ ".zip")).
Proof.
  unfold compressSession. intros H.
  apply bind_resolved_inv in H as (? & ? & _ & H).
  apply bind_resolved_inv in H as (? & ? & _ & H).
  apply bind_resolved_inv in H as (? & ? & _ & H).
  apply bind_resolved_inv in H as (? & wr & _ & H).
  unfold try_catch in H.
  destruct (fs_rename _ _ wr) as [[[]|e|e] w'] eqn:R; try discriminate.
  injection H as <-. eapply fs_rename_resolved_creates. exact R.
Qed.

(** C6. In a backup cycle of a constructed instance where the archive was
    built and [store.save] rejects, [storeRemoteSession] resolves: the error
    is caught and its message goes to the console, the final archive file
    is still there when the cycle ends, the remote store is unchanged, and
    after the build the cycle only checks the archive, calls the store and
    removes the staging directory. *)
Theorem upload_failure_keeps_archive rev proc o built options w w1 e w3 :
  constructor rev proc o = Built built →
  let this := assigned rev built in
  let session := to_String (sessionName this) in
  let final := session +:+ ".zip" in
  compressSession rev this (discardStalePartial this w).2 = (Resolved tt, w1) →
  store_save session final (isValidPath final w1).2 = (Rejected e, w3) →
  ∃ w',
    storeRemoteSession rev this options w = (Resolved tt, w')
    ∧ console w'
      = console w1
          ++ [LogError match rev with
                       | Named => [message e]
                       | Unnamed =>
                           ["[RemoteAuth] Failed to upload zip to remote store:";
                            message e]
                       end]
    ∧ is_Some (files w' !! final)
    ∧ files w' !! final = files w1 !! final
    ∧ remote w' = remote w1
    ∧ trace w'
      = trace w1
          ++ [FsAccess final; StoreSave session final;
              FsRm (Str (tempDir this))]
          ++ (if emit_requested options
              then [ClientEmit REMOTE_SESSION_SAVED] else []).
Proof.
  intros Hbuilt this session final Hbuild Hsave.
  pose proof (compressSession_resolved_creates _ _ _ _ Hbuild) as Hfinal.
  fold session in Hfinal. fold final in Hfinal.
  assert (Fs.at_or_inside (tempDir this) final = false) as Hout.
  { apply archive_outside_staging.
    apply (constructor_laid_out _ _ _ _ Hbuilt). }
  pose proof (discardStalePartial_resolves this w) as Hd.
  destruct (discardStalePartial this w) as [od w0] eqn:D.
  simpl in Hd, Hbuild. subst od.
  rewrite isValidPath_spec in Hsave. simpl in Hsave.
  pose proof (store_save_rejected _ _ _ _ _ Hsave) as ->.
  rewrite storeRemoteSession_phases.
  rewrite (bind_resolved _ _ _ _ _ D).
  rewrite (bind_resolved _ _ _ _ _ Hbuild).
  unfold uploadAndCleanUp. fold session. fold final.
  rewrite (bind_resolved _ _ _ _ _ (isValidPath_spec final w1)).
  rewrite bool_decide_eq_true_2 by exact Hfinal.
  unfold bind at 1, try_catch at 1. rewrite Hsave.
  unfold swallow, try_catch.
  destruct rev; destruct (emit_requested options).
  all: eexists; split; [reflexivity|]; simpl.
  all: rewrite (remove_tree_outside _ _ _ Hout).
  all: repeat split; try assumption.
  all: rewrite <- !app_assoc; reflexivity.
Qed.

(** ** Construction *)

Lemma require_optional_all proc :
  all_installed proc = true →
  require_optional proc = {| fs := true; AdmZip := true; archiver := true |}.
Proof.
  unfold all_installed, require_optional.
  destruct (has_fs_extra proc), (has_adm_zip proc), (has_archiver proc);
    try discriminate; reflexivity.
Qed.

Lemma require_optional_none proc :
  all_installed proc = false →
  require_optional proc = {| fs := false; AdmZip := false; archiver := false |}.
Proof.
  unfold all_installed, require_optional.
  destruct (has_fs_extra proc), (has_adm_zip proc), (has_archiver proc);
    try discriminate; reflexivity.
Qed.

(** C9. When one of the optional packages cannot be loaded, the constructor
    of either copy throws the dependency error, whatever its argument; and
    for an instance that was built all three modules are defined, so no later
    use of [fs], [AdmZip] or [archiver] meets an undefined module. *)
Theorem dependencies_checked_at_construction rev proc o :
  (all_installed proc = false →
   constructor rev proc o = Threw (missing_dependencies rev))
  ∧ (∀ this, constructor rev proc o = Built this →
       fs (require_optional proc) = true
       ∧ AdmZip (require_optional proc) = true
       ∧ archiver (require_optional proc) = true).
Proof.
  split.
  - intros H. unfold constructor. rewrite (require_optional_none _ H).
    destruct rev; reflexivity.
  - intros this. destruct (all_installed proc) eqn:H.
    + rewrite (require_optional_all _ H). auto.
    + unfold constructor. rewrite (require_optional_none _ H).
      destruct rev; discriminate.
Qed.

(** C8 (as amended). With the packages installed, a store and an interval
    of at least 60000 ms: an identifier that matches the pattern is accepted
    by both copies and kept; the first copy throws for a non-empty identifier
    that does not match and accepts the empty string as if none was given;
    the second copy never throws for the identifier and falls back to
    ["default"]. *)
Theorem clientId_validation proc o id st ms :
  all_installed proc = true →
  opt_clientId o = Str id →
  opt_store o = Some st →
  opt_backupSyncIntervalMs o = Some ms →
  60000 ≤ ms →
  (IdRegex.test id = true →
   ∀ rev, ∃ this,
     constructor rev proc o = Built this ∧ clientId this = Str id)
  ∧ (IdRegex.test id = false → id ≠ "" →
     constructor Named proc o = Threw invalid_clientId)
  ∧ (id = "" →
     ∃ this, constructor Named proc o = Built this
             ∧ clientId this = Str ""
             ∧ sessionName (assigned Named this) = Str "RemoteAuth")
  ∧ (IdRegex.test id = false →
     ∃ this, constructor Unnamed proc o = Built this
             ∧ clientId this = Str "default").
Proof.
  intros Hdeps Hid Hstore Hms Hfloor.
  assert (interval_rejected (opt_backupSyncIntervalMs o) = false) as Hint.
  { rewrite Hms. simpl. apply orb_false_iff. split; lia. }
  unfold constructor. rewrite (require_optional_all _ Hdeps), Hid, Hstore, Hint.
  cbn [fs AdmZip archiver negb andb orb].
  unfold clientId_rejected. cbn [to_String].
  repeat split.
  - intros Hmatch rev. rewrite Hmatch.
    assert (truthy (Str id) = true) as ->
      by (destruct id; [discriminate|reflexivity]).
    destruct rev; eexists; split; reflexivity.
  - intros Hmiss Hne. rewrite Hmiss.
    assert (truthy (Str id) = true) as ->
      by (destruct id; [congruence|reflexivity]).
    reflexivity.
  - intros ->. eexists. repeat split; reflexivity.
  - intros Hmiss. rewrite Hmiss, andb_false_r.
    eexists. split; reflexivity.
Qed.

(** C10. Built without a client identifier, the first copy succeeds; its
    staging directory is [<dataPath>/wwebjs_temp_session_undefined], while
    [beforeBrowserInitialized] names the session ["RemoteAuth"]: that is the
    working directory's name and the key of the first call to the store. *)
Theorem absent_clientId_names proc o st ms :
  all_installed proc = true →
  opt_clientId o = Undefined →
  opt_store o = Some st →
  opt_backupSyncIntervalMs o = Some ms →
  60000 ≤ ms →
  ∃ this,
    constructor Named proc o = Built this
    ∧ dataPath this
      = Path.resolve (cwd proc) (dataPath_or_default (opt_dataPath o))
    ∧ tempDir this = dataPath this +:+ "/wwebjs_temp_session_undefined"
    ∧ (∀ w this' w',
         beforeBrowserInitialized Named this w = (Resolved this', w') →
         sessionName this' = Str "RemoteAuth"
         ∧ userDataDir this' = Str (Path.join (dataPath this) "RemoteAuth")
         ∧ tempDir this' = tempDir this)
    ∧ (∀ w, truthy (puppeteer_userDataDir w) = false →
         ∃ rest,
           trace (beforeBrowserInitialized Named this w).2
           = trace w ++ StoreSessionExists "RemoteAuth" :: rest).
Proof.
  intros Hdeps Hid Hstore Hms Hfloor.
  assert (interval_rejected (opt_backupSyncIntervalMs o) = false) as Hint.
  { rewrite Hms. simpl. apply orb_false_iff. split; lia. }
  unfold constructor. rewrite (require_optional_all _ Hdeps), Hid, Hstore, Hint.
  cbn [fs AdmZip archiver negb andb orb clientId_rejected truthy to_String].
  eexists. split; [reflexivity|].
  split; [reflexivity|]. split; [reflexivity|]. split.
  - intros w this' w' H.
    apply beforeBrowserInitialized_assigned in H. subst this'.
    repeat split; reflexivity.
  - intros w Hfree.
    unfold beforeBrowserInitialized, bind at 1, gets.
    cbn [clientId truthy dataPath].
    rewrite Hfree. cbn [andb].
    unfold extractRemoteSession.
    cbn [sessionName to_String].
    unfold store_sessionExists, external.
    rewrite !bind_assoc.
    unfold bind at 1, faulted, gets.
    rewrite bind_assoc.
    unfold bind at 1, called at 1, modify at 1.
    match goal with
    | |- ∃ rest, trace (?m ?w1).2 = _ =>
        assert (stable (calls any_call) m) as Hgrow
    end.
    { unfold unCompressSession. stable_calls. }
    match goal with
    | |- ∃ rest, trace (?m ?w1).2 = _ =>
        destruct (Hgrow w1) as (rest & Hrest & _)
    end.
    exists rest. rewrite Hrest. simpl. rewrite <- app_assoc. reflexivity.
Qed.

(** ** The staging directory and the metadata filter *)

Lemma resolves_ret {A} (a : A) : resolves (ret a).
Proof. intros w. exists a. reflexivity. Qed.

Lemma resolves_bind {A B} (m : Async A) (k : A → Async B) :
  resolves m → (∀ a, resolves (k a)) → resolves (bind m k).
Proof.
  intros Hm Hk w. unfold bind. destruct (Hm w) as [a Ha].
  destruct (m w) as [o w1]. simpl in Ha. subst o. apply Hk.
Qed.

Lemma resolves_try_catch {A} (m : Async A) (h : Error → Async A) :
  calm m → (∀ e, resolves (h e)) → resolves (try_catch m h).
Proof.
  intros Hm Hh w. unfold try_catch. specialize (Hm w).
  destruct (m w) as [[a|e|e] w1]; simpl in *.
  - exists a. reflexivity.
  - apply Hh.
  - destruct (Hm e). reflexivity.
Qed.

Lemma resolves_for_of {A} (l : list A) (body : A → Async unit) :
  (∀ x, resolves (body x)) → resolves (for_of l body).
Proof.
  intros Hb. induction l as [|x l IH]; simpl.
  - apply resolves_ret.
  - apply resolves_bind; auto.
Qed.

Ltac calm_call :=
  intros w e;
  autounfold with collaborators;
  unfold bind, called, modify, gets, throw, ret; cbv beta;
  repeat match goal with
         | |- context [match ?x with _ => _ end] => destruct x
         end;
  simpl; discriminate.

Lemma fs_access_calm p : calm (fs_access p).
Proof. calm_call. Qed.

Lemma fs_readdir_calm p : calm (fs_readdir p).
Proof. calm_call. Qed.

Lemma fs_lstat_calm p : calm (fs_lstat p).
Proof. calm_call. Qed.

Lemma fs_rm_calm p : calm (fs_rm p).
Proof. calm_call. Qed.

Lemma fs_unlink_calm p : calm (fs_unlink p).
Proof. calm_call. Qed.

Lemma calm_then_ret {A B} (m : Async A) (f : A → B) :
  calm m → calm (x <- m;; ret (f x)).
Proof.
  intros Hm w e. unfold bind, ret. specialize (Hm w).
  destruct (m w) as [[a|e'|e'] w1]; simpl in *; [discriminate|discriminate|].
  intros [= ->]. destruct (Hm e). reflexivity.
Qed.

(** X22. The metadata filter of the second copy resolves in every world: a
    missing directory is skipped, and a listing or a [lstat] that fails counts
    as nothing to filter. *)
Lemma deleteMetadata_Unnamed_resolves this :
  resolves (deleteMetadata Unnamed this).
Proof.
  unfold deleteMetadata. apply resolves_for_of. intros dir.
  apply resolves_bind.
  { apply resolves_try_catch; [|intros; apply resolves_ret].
    apply (calm_then_ret (fs_access dir) (λ _, true)), fs_access_calm. }
  intros [|]; simpl; [|apply resolves_ret].
  apply resolves_bind.
  { apply resolves_try_catch; [apply fs_readdir_calm|intros; apply resolves_ret]. }
  intros sessionFiles. apply resolves_for_of. intros element.
  destruct (negb _); [|apply resolves_ret].
  apply resolves_bind.
  { apply resolves_try_catch; [|intros; apply resolves_ret].
    apply (calm_then_ret (fs_lstat _) Some), fs_lstat_calm. }
  intros [st|]; [|apply resolves_ret].
  destruct (isDirectory st).
  - apply resolves_try_catch; [apply fs_rm_calm|intros; apply resolves_ret].
  - apply resolves_try_catch; [apply fs_unlink_calm|intros; apply resolves_ret].
Qed.

(** X23. When a backup cycle resolves, the staging directory is gone. *)
Lemma staging_removed_when_cycle_resolves rev this options w w' :
  storeRemoteSession rev this options w = (Resolved tt, w') →
  files w' !! tempDir this = None.
Proof.
  unfold storeRemoteSession. intros H.
  do 5 (apply bind_resolved_inv in H as (? & ? & _ & H)).
  apply bind_resolved_inv in H as ([] & w5 & Hrm & H).
  unfold swallow, try_catch in Hrm. rewrite fs_rm_spec in Hrm.
  injection Hrm as <-.
  destruct (emit_requested options).
  - unfold client_emit, bind, called, modify in H. injection H as <-.
    apply remove_tree_root.
  - unfold ret in H. injection H as <-. apply remove_tree_root.
Qed.

(** ** Concrete runs *)

(** A backup of the profile with collaborators that never fail: the archive
    holds what the metadata filter keeps, the store holds the archive, and
    the staging directory and the [.partial] file are gone. *)
Example backup_cycle_run :
  storeRemoteSession Named (bot Named) None (world profile ∅ never)
  = (Resolved tt,
     (storeRemoteSession Named (bot Named) None (world profile ∅ never)).2)
  ∧ remote (storeRemoteSession Named (bot Named) None
              (world profile ∅ never)).2
    = {[ "RemoteAuth-bot" :=
           Zip [FileEntry "Default/IndexedDB/keys" (Bytes "k");
                DirEntry "Default/IndexedDB"; DirEntry "Default"] ]}
  ∧ files (storeRemoteSession Named (bot Named) None
             (world profile ∅ never)).2
      !! "/app/.wwebjs_auth/wwebjs_temp_session_bot"
    = None
  ∧ files (storeRemoteSession Named (bot Named) None
             (world profile ∅ never)).2
      !! "RemoteAuth-bot.zip.partial"
    = None.
Proof. vm_compute. repeat split; reflexivity. Qed.

(** A directory in the place of the final archive makes the rename of the
    [.partial] file fail: the cycle rejects with the error of the rename and
    the store is not called. *)
Example rename_failure_run :
  (storeRemoteSession Named (bot Named) None
     (world (<["RemoteAuth-bot.zip" := Dir]> profile) ∅ never)).1
  = Rejected EISDIR
  ∧ Forall not_save
      (trace (storeRemoteSession Named (bot Named) None
                (world (<["RemoteAuth-bot.zip" := Dir]> profile) ∅ never)).2)
  ∧ remote (storeRemoteSession Named (bot Named) None
              (world (<["RemoteAuth-bot.zip" := Dir]> profile) ∅ never)).2
    = ∅.
Proof. vm_compute. repeat split; repeat constructor. Qed.

(** C4. A backup cycle whose archiver fails: [storeRemoteSession] rejects at
    [compressSession], the removal of the staging directory is never reached,
    and the staging directory, with the copy of the profile in it, is still
    on disk when the cycle has ended.  Both copies of the class behave so. *)
Theorem staging_directory_outlives_failed_cycle :
  (storeRemoteSession Named (bot Named) None (world profile ∅ always)).1
  = Rejected (Err "archiver: stream error")
  ∧ files (storeRemoteSession Named (bot Named) None
             (world profile ∅ always)).2
      !! "/app/.wwebjs_auth/wwebjs_temp_session_bot"
    = Some Dir
  ∧ (storeRemoteSession Unnamed (bot Unnamed) None (world profile ∅ always)).1
    = Rejected (Err "archiver: stream error")
  ∧ files (storeRemoteSession Unnamed (bot Unnamed) None
             (world profile ∅ always)).2
      !! "/app/.wwebjs_auth/wwebjs_temp_session_bot"
    = Some Dir.
Proof. vm_compute. repeat split; reflexivity. Qed.

(** C5. The metadata filter of [src/authStrategies/RemoteAuth.js] on a
    staging directory without a [Default] subdirectory, and on a missing
    staging directory: the unguarded [readdir] rejects, the filter rejects,
    and so does the backup cycle of a freshly created working directory.  The
    second copy resolves on the same inputs. *)
Theorem metadata_filter_rejects_missing_directory :
  (deleteMetadata Named (bot Named)
     (world {[ "/app/.wwebjs_auth/wwebjs_temp_session_bot" := Dir ]} ∅ never)).1
  = Rejected ENOENT
  ∧ (deleteMetadata Named (bot Named) (world ∅ ∅ never)).1 = Rejected ENOENT
  ∧ (storeRemoteSession Named (bot Named) None
       (world fresh_profile ∅ never)).1
    = Rejected ENOENT
  ∧ (deleteMetadata Unnamed (bot Unnamed)
       (world {[ "/app/.wwebjs_auth/wwebjs_temp_session_bot" := Dir ]} ∅ never)).1
    = Resolved tt
  ∧ (deleteMetadata Unnamed (bot Unnamed) (world ∅ ∅ never)).1 = Resolved tt
  ∧ (storeRemoteSession Unnamed (bot Unnamed) None
       (world fresh_profile ∅ never)).1
    = Resolved tt.
Proof. vm_compute. repeat split; reflexivity. Qed.


(** C2, as stated, fails.  The remote blob is not a zip archive and no
    working directory is on disk: the restore resolves and leaves no working
    directory at all, where a restore without a remote session makes one. *)
Lemma unreadable_archive_counterexample :
  (extractRemoteSession Named (bot Named)
     (world ∅ {[ "RemoteAuth-bot" := Bytes "not a zip" ]} never)).1
  = Resolved tt
  ∧ files (extractRemoteSession Named (bot Named)
             (world ∅ {[ "RemoteAuth-bot" := Bytes "not a zip" ]} never)).2
      !! "/app/.wwebjs_auth/RemoteAuth-bot"
    = None
  ∧ files (extractRemoteSession Named (bot Named) (world ∅ ∅ never)).2
      !! "/app/.wwebjs_auth/RemoteAuth-bot"
    = Some Dir.
Proof. vm_compute. repeat split; reflexivity. Qed.

(** C8, as stated, fails.  The empty string does not match the pattern and
    the first copy builds an instance for it; ["a b"] does not match and the
    second copy builds an instance for it. *)
Lemma clientId_counterexample :
  IdRegex.test "" = false
  ∧ (∃ this, constructor Named proc (options (Str "")) = Built this)
  ∧ IdRegex.test "a b" = false
  ∧ (∃ this, constructor Unnamed proc (options (Str "a b")) = Built this).
Proof. repeat split; try reflexivity; eexists; reflexivity. Qed.

(** *** The theorems at concrete inputs *)


Lemma unreadable_archive_witness :
  ∃ w',
    extractRemoteSession Named (bot Named) half_extracted = (Resolved tt, w')
    ∧ files w' !! "RemoteAuth-bot.zip" = None
    ∧ files w' !! "/app/.wwebjs_auth/RemoteAuth-bot/First Run"
      = Some (File (Bytes "")).
Proof.
  destruct (unreadable_archive_is_dropped Named (bot Named) half_extracted
              (store_sessionExists "RemoteAuth-bot" half_extracted).2
              (store_extract "RemoteAuth-bot" "RemoteAuth-bot.zip"
                 (store_sessionExists "RemoteAuth-bot" half_extracted).2).2
              (Err "ADM-ZIP: Unable to write file")
              [("/app/.wwebjs_auth/RemoteAuth-bot", Dir);
               ("/app/.wwebjs_auth/RemoteAuth-bot/First Run",
                File (Bytes ""))])
    as (w' & Hrun & Hzip & Hrest & _).
  - vm_compute. reflexivity.
  - vm_compute. reflexivity.
  - vm_compute. reflexivity.
  - exists w'. split; [exact Hrun|]. split.
    + etransitivity; [exact Hzip|]. vm_compute. reflexivity.
    + rewrite Hrest by discriminate. vm_compute. reflexivity.
Defined.

Lemma archive_failure_witness :
  storeRemoteSession Named (bot Named) None (world profile ∅ always)
  = (Rejected (Err "archiver: stream error"),
     (compressSession Named (bot Named)
        (discardStalePartial (bot Named) (world profile ∅ always)).2).2)
  ∧ remote (compressSession Named (bot Named)
              (discardStalePartial (bot Named) (world profile ∅ always)).2).2
    = ∅.
Proof.
  destruct (archive_failure_rejects_without_upload Named (bot Named) None
              (world profile ∅ always) (Err "archiver: stream error")
              (compressSession Named (bot Named)
                 (discardStalePartial (bot Named)
                    (world profile ∅ always)).2).2)
    as (Hrun & Hremote & _).
  - vm_compute. reflexivity.
  - split; [exact Hrun|exact Hremote].
Defined.

Lemma upload_failure_witness :
  ∃ w',
    storeRemoteSession Named (bot Named) None (world profile ∅ (from 10))
    = (Resolved tt, w')
    ∧ console w' = [LogError ["store.save rejected"]]
    ∧ is_Some (files w' !! "RemoteAuth-bot.zip").
Proof.
  destruct (upload_failure_keeps_archive Named proc (options (Str "bot"))
              (built Named) None (world profile ∅ (from 10))
              (compressSession Named (bot Named)
                 (discardStalePartial (bot Named)
                    (world profile ∅ (from 10))).2).2
              (Err "store.save rejected")
              (store_save "RemoteAuth-bot" "RemoteAuth-bot.zip"
                 (isValidPath "RemoteAuth-bot.zip"
                    (compressSession Named (bot Named)
                       (discardStalePartial (bot Named)
                          (world profile ∅ (from 10))).2).2).2).2)
    as (w' & Hrun & Hlog & Hkept & _).
  - reflexivity.
  - vm_compute. reflexivity.
  - vm_compute. reflexivity.
  - exists w'. split; [exact Hrun|]. split; [|exact Hkept].
    rewrite Hlog. vm_compute. reflexivity.
Defined.

Lemma stale_partial_witness :
  ∃ w0,
    discardStalePartial (bot Named) interrupted = (Resolved tt, w0)
    ∧ files w0 !! "RemoteAuth-bot.zip.partial" = None
    ∧ trace w0
      = [FsAccess "RemoteAuth-bot.zip.partial";
         FsUnlink "RemoteAuth-bot.zip.partial"].
Proof.
  destruct (stale_partial_deleted_first Named (bot Named) None interrupted
              (Bytes "half"))
    as (w0 & Hd & _ & Hgone & Htrace & _).
  - vm_compute. reflexivity.
  - exists w0. split; [exact Hd|]. split; [exact Hgone|exact Htrace].
Defined.

Lemma clientId_witness :
  ∃ this,
    constructor Named proc (options (Str "bot")) = Built this
    ∧ clientId this = Str "bot".
Proof.
  destruct (clientId_validation proc (options (Str "bot")) "bot" StoreObject
              60000)
    as (Hmatch & _).
  - reflexivity.
  - reflexivity.
  - reflexivity.
  - reflexivity.
  - lia.
  - apply (Hmatch eq_refl Named).
Defined.

Lemma dependencies_witness :
  all_installed without_archiver = false
  ∧ constructor Named without_archiver (options (Str "bot"))
    = Threw (missing_dependencies Named).
Proof.
  split; [reflexivity|].
  apply (dependencies_checked_at_construction Named without_archiver
           (options (Str "bot"))).
  reflexivity.
Defined.

Lemma absent_clientId_witness :
  ∃ this,
    constructor Named proc (options Undefined) = Built this
    ∧ tempDir this = "/app/.wwebjs_auth/wwebjs_temp_session_undefined".
Proof.
  destruct (absent_clientId_names proc (options Undefined) StoreObject 60000)
    as (this & Hbuilt & Hdata & Htemp & _).
  - reflexivity.
  - reflexivity.
  - reflexivity.
  - reflexivity.
  - lia.
  - exists this. split; [exact Hbuilt|].
    rewrite Htemp, Hdata. vm_compute. reflexivity.
Defined.

(** * Further properties of the class *)

(** ** The constructor *)

(** X1. The constructor builds an instance exactly when the optional packages
    load, the client identifier passes (the first copy only; the second
    never throws for it), the interval is at least 60000 ms and a store is
    given. *)
Theorem constructor_builds_iff rev proc o :
  (∃ this, constructor rev proc o = Built this)
  ↔ all_installed proc = true
    ∧ (rev = Named → clientId_rejected (opt_clientId o) = false)
    ∧ interval_rejected (opt_backupSyncIntervalMs o) = false
    ∧ is_Some (opt_store o).
Proof.
  unfold constructor. destruct (all_installed proc) eqn:Hdeps.
  - rewrite (require_optional_all _ Hdeps).
    cbn [fs AdmZip archiver negb andb orb].
    destruct rev.
    + destruct (clientId_rejected (opt_clientId o)).
      { split; [intros [? ?]; discriminate|]. intros (_ & H & _).
        discriminate (H eq_refl). }
      destruct (interval_rejected (opt_backupSyncIntervalMs o)).
      { split; [intros [? ?]; discriminate|]. intros (_ & _ & ? & _).
        discriminate. }
      destruct (opt_store o) as [st|].
      * split; [intros _; repeat split; eauto|intros _; eauto].
      * split; [intros [? ?]; discriminate|].
        intros (_ & _ & _ & [? ?]). discriminate.
    + destruct (interval_rejected (opt_backupSyncIntervalMs o)).
      { split; [intros [? ?]; discriminate|]. intros (_ & _ & ? & _).
        discriminate. }
      destruct (opt_store o) as [st|].
      * split; [intros _; repeat split; eauto; discriminate|intros _; eauto].
      * split; [intros [? ?]; discriminate|].
        intros (_ & _ & _ & [? ?]). discriminate.
  - rewrite (require_optional_none _ Hdeps).
    split; [destruct rev; intros [? ?]; discriminate|].
    intros (? & _). discriminate.
Qed.

(** X2. With the packages loaded and the identifier passed, an interval that is
    missing, zero, negative or below 60000 ms makes the constructor throw the
    interval error, whether or not a store is given. *)
Theorem interval_below_floor_is_rejected rev proc o :
  all_installed proc = true →
  (rev = Named → clientId_rejected (opt_clientId o) = false) →
  (∀ ms, opt_backupSyncIntervalMs o = Some ms → ms < 60000) →
  constructor rev proc o = Threw (invalid_interval rev).
Proof.
  intros Hdeps Hid Hms.
  assert (interval_rejected (opt_backupSyncIntervalMs o) = true) as Hint.
  { destruct (opt_backupSyncIntervalMs o) as [ms|]; [|reflexivity].
    simpl. specialize (Hms ms eq_refl).
    apply orb_true_iff. right. apply Z.ltb_lt. exact Hms. }
  unfold constructor. rewrite (require_optional_all _ Hdeps), Hint.
  cbn [fs AdmZip archiver negb andb orb].
  destruct rev; [rewrite (Hid eq_refl)|]; reflexivity.
Qed.

(** X3. With everything else in order, a missing store makes the constructor
    throw the store error: the store is the last thing checked. *)
Theorem store_is_required rev proc o ms :
  all_installed proc = true →
  (rev = Named → clientId_rejected (opt_clientId o) = false) →
  opt_backupSyncIntervalMs o = Some ms →
  60000 ≤ ms →
  opt_store o = None →
  constructor rev proc o = Threw store_required.
Proof.
  intros Hdeps Hid Hms Hfloor Hstore.
  assert (interval_rejected (opt_backupSyncIntervalMs o) = false) as Hint.
  { rewrite Hms. simpl. apply orb_false_iff. split; lia. }
  unfold constructor. rewrite (require_optional_all _ Hdeps), Hint, Hstore.
  cbn [fs AdmZip archiver negb andb orb].
  destruct rev; [rewrite (Hid eq_refl)|]; reflexivity.
Qed.

Lemma constructor_Named_accepts proc o this :
  constructor Named proc o = Built this →
  clientId_rejected (opt_clientId o) = false.
Proof.
  unfold constructor.
  destruct (_ && _); [discriminate|].
  destruct (clientId_rejected _); [discriminate|reflexivity].
Qed.

Lemma class_excludes_separators c :
  IdRegex.class c = true → Ascii.eqb c "/" = false ∧ Ascii.eqb c "." = false.
Proof.
  destruct c as [[] [] [] [] [] [] [] []]; vm_compute; intros H;
    first [discriminate H | split; reflexivity].
Qed.

Lemma star_excludes_separators s :
  IdRegex.star s = true → contains "/" s = false ∧ contains "." s = false.
Proof.
  induction s as [|c s IH]; simpl; [auto|].
  intros H. apply andb_true_iff in H as [Hc Hs].
  destruct (class_excludes_separators c Hc) as [-> ->].
  destruct (IH Hs) as [-> ->]. auto.
Qed.

(** X4. The client identifier of every instance that is built, as the paths and
    the session name spell it, holds no ["/"] and no ["."]: the session
    directory and the staging directory are named by a single path segment
    that cannot climb out of the data directory. *)
Theorem built_clientId_is_one_segment rev proc o this :
  constructor rev proc o = Built this →
  contains "/" (to_String (clientId this)) = false
  ∧ contains "." (to_String (clientId this)) = false.
Proof.
  destruct rev; intros H.
  - pose proof (constructor_Named_accepts _ _ _ H) as Hid.
    apply constructor_Named_fields in H as (-> & _).
    unfold clientId_rejected in Hid.
    destruct (opt_clientId o) as [| |[|c s]]; try (split; reflexivity).
    simpl in Hid. apply negb_false_iff in Hid.
    apply (star_excludes_separators (String c s)). exact Hid.
  - apply constructor_Unnamed_fields in H as (-> & _).
    unfold effective_clientId. cbn [to_String].
    destruct (truthy (opt_clientId o)); [|split; reflexivity].
    destruct (IdRegex.test (to_String (opt_clientId o))) eqn:Ht;
      [|split; reflexivity].
    cbn [andb].
    destruct (to_String (opt_clientId o)) as [|c s]; [split; reflexivity|].
    apply (star_excludes_separators (String c s)). exact Ht.
Qed.

(** ** Before the browser starts *)

(** X5. A user-supplied [userDataDir] that is not the session directory makes
    [beforeBrowserInitialized] reject at once: the store is not asked and
    nothing changes. *)
Theorem foreign_userDataDir_is_refused rev this w :
  truthy (puppeteer_userDataDir w) = true →
  to_String (puppeteer_userDataDir w)
  ≠ to_String (userDataDir (assigned rev this)) →
  beforeBrowserInitialized rev this w = (Rejected incompatible_userDataDir, w).
Proof.
  intros Hset Hother.
  apply String.eqb_neq in Hother.
  unfold beforeBrowserInitialized, bind at 1, gets.
  destruct rev; cbn [assigned userDataDir to_String] in Hother;
    rewrite Hset, Hother; reflexivity.
Qed.

(** X6. Without a user-supplied [userDataDir], or with one that is the session
    directory itself, [beforeBrowserInitialized] ends as the restore ends:
    when the restore resolves, the instance carries its session fields and
    the browser options point at the session directory; when it rejects, the
    options are left alone. *)
Theorem beforeBrowserInitialized_follows_restore rev this w :
  (truthy (puppeteer_userDataDir w) = false
   ∨ to_String (puppeteer_userDataDir w)
     = to_String (userDataDir (assigned rev this))) →
  beforeBrowserInitialized rev this w
  = match extractRemoteSession rev (assigned rev this) w with
    | (Resolved _, w1) =>
        (Resolved (assigned rev this),
         with_puppeteer_userDataDir (userDataDir (assigned rev this)) w1)
    | (Rejected e, w1) => (Rejected e, w1)
    | (Crashed e, w1) => (Crashed e, w1)
    end.
Proof.
  intros Hok.
  assert (truthy (puppeteer_userDataDir w)
          && negb (String.eqb (to_String (puppeteer_userDataDir w))
                     (to_String (userDataDir (assigned rev this))))
          = false) as Hgo.
  { destruct Hok as [->| ->]; [reflexivity|].
    rewrite String.eqb_refl. apply andb_false_r. }
  unfold beforeBrowserInitialized, bind at 1, gets.
  destruct rev; cbn [assigned userDataDir to_String] in Hgo |- *;
    rewrite Hgo; unfold bind, modify, ret;
    destruct (extractRemoteSession _ _ w) as [[[]|e|e] w1]; reflexivity.
Qed.

(** ** Restoring *)

Lemma store_sessionExists_resolved s w b w1 :
  store_sessionExists s w = (Resolved b, w1) →
  w1 = with_trace (trace w ++ [StoreSessionExists s]) w.
Proof.
  unfold store_sessionExists, external, faulted, bind, called, modify, gets,
    throw, ret.
  destruct (faults w _); [discriminate|]. intros [= _ <-]. reflexivity.
Qed.


(** X7. When the store reports no session, the restore only makes sure the
    working directory is there: it is created if missing, what is on disk
    stays as it is, the store is not asked for an archive.  A regular file
    in the place of the directory makes the restore reject. *)
Theorem restore_without_remote_session rev this d w w1 :
  userDataDir this = Str d →
  store_sessionExists (to_String (sessionName this)) w = (Resolved false, w1) →
  match files w !! d with
  | Some (File _) =>
      extractRemoteSession rev this w
      = (Rejected EEXIST, with_trace (trace w1 ++ [FsMkdir (Str d)]) w1)
  | _ =>
      extractRemoteSession rev this w
      = (Resolved tt,
         with_files (<[d := Dir]> (files w))
           (with_trace (trace w1 ++ [FsMkdir (Str d)]) w1))
  end.
Proof.
  intros Hd Hexists.
  pose proof (store_sessionExists_resolved _ _ _ _ Hexists) as Hw1.
  unfold extractRemoteSession.
  rewrite (bind_resolved _ _ _ _ _ Hexists), Hd.
  unfold fs_mkdir, set_files, bind, called, modify, gets, throw. cbv beta.
  change (files (with_trace (trace w1 ++ [FsMkdir (Str d)]) w1))
    with (files w1).
  assert (files w1 = files w) as -> by (rewrite Hw1; reflexivity).
  destruct (files w !! d) as [[c|]|]; try reflexivity.
  all: rewrite Hw1; reflexivity.
Qed.


Lemma calm_bind {A B} (m : Async A) (k : A → Async B) :
  calm m → (∀ a, calm (k a)) → calm (bind m k).
Proof.
  intros Hm Hk w e. unfold bind. specialize (Hm w).
  destruct (m w) as [[a|e'|e'] w1]; simpl in *.
  - apply Hk.
  - discriminate.
  - intros _. destruct (Hm e'). reflexivity.
Qed.

Lemma calm_try_catch {A} (m : Async A) (h : Error → Async A) :
  calm m → (∀ e, calm (h e)) → calm (try_catch m h).
Proof.
  intros Hm Hh w e. unfold try_catch. specialize (Hm w).
  destruct (m w) as [[a|e'|e'] w1]; simpl in *.
  - discriminate.
  - apply Hh.
  - intros _. destruct (Hm e'). reflexivity.
Qed.

Lemma zip_extractAllTo_calm zip dest : calm (zip_extractAllTo zip dest).
Proof. calm_call. Qed.

Lemma unCompressSession_calm rev this p : calm (unCompressSession rev this p).
Proof.
  unfold unCompressSession. apply calm_bind; [apply zip_extractAllTo_calm|].
  intros _. destruct rev; [apply fs_unlink_calm|].
  apply calm_try_catch; [apply fs_unlink_calm|]. intros e w e'. discriminate.
Qed.

Lemma resolved_world {A} (m : Async A) w :
  (∃ a, (m w).1 = Resolved a) → ∃ a w', m w = (Resolved a, w').
Proof. intros [a H]. destruct (m w) as [o w']. simpl in H. subst. eauto. Qed.

(** X9. Once the archive has been fetched, the restore always resolves:
    whatever goes wrong while the archive is unpacked or unlinked is caught,
    and the remote store is left as it is. *)
Theorem restore_after_fetch_always_resolves rev this w w1 w2 :
  let session := to_String (sessionName this) in
  store_sessionExists session w = (Resolved true, w1) →
  store_extract session (session +:+ ".zip") w1 = (Resolved tt, w2) →
  ∃ w', extractRemoteSession rev this w = (Resolved tt, w')
        ∧ remote w' = remote w2.
Proof.
  intros session Hexists Hfetch.
  unfold extractRemoteSession. fold session.
  rewrite (bind_resolved _ _ _ _ _ Hexists).
  rewrite (bind_resolved _ _ _ _ _ Hfetch).
  match goal with
  | |- ∃ w', ?m w2 = _ ∧ _ =>
      assert (resolves m) as Hres; [|assert (stable same_remote m) as Hsame]
  end.
  - apply resolves_bind.
    { intros w0. rewrite isValidPath_spec. eauto. }
    intros [|].
    + apply resolves_try_catch; [apply unCompressSession_calm|].
      intros e. apply resolves_bind; [intros w0; eexists; reflexivity|].
      intros _. apply resolves_try_catch; [apply fs_unlink_calm|].
      intros _. apply resolves_ret.
    + intros w0. eexists. reflexivity.
  - unfold unCompressSession. stable_remote.
  - destruct (resolved_world _ w2 (Hres w2)) as ([] & w' & Hrun).
    exists w'. split; [exact Hrun|].
    specialize (Hsame w2). rewrite Hrun in Hsame. exact Hsame.
Qed.

(** ** Logging out and shutting down *)

#[local] Instance same_timer_preorder : PreOrder same_timer.
Proof.
  split; unfold same_timer.
  - intros w. reflexivity.
  - intros w1 w2 w3 -> ->. reflexivity.
Qed.

#[local] Instance same_local_preorder : PreOrder same_local.
Proof.
  split; unfold same_local.
  - intros w. auto.
  - intros w1 w2 w3 [-> ->] [-> ->]. auto.
Qed.

Ltac stable_timer :=
  stable_steps;
  solve [ apply stable_modify; intros; reflexivity
        | unfold called; apply stable_modify; intros; reflexivity ].

Ltac stable_local :=
  stable_steps;
  solve [ apply stable_modify; intros; split; reflexivity
        | unfold called; apply stable_modify; intros; split; reflexivity ].

Lemma deleteRemoteSession_same_local this :
  stable same_local (deleteRemoteSession this).
Proof. unfold deleteRemoteSession. stable_local. Qed.

Lemma store_sessionExists_answer s w :
  faults w (length (trace w)) = false →
  store_sessionExists s w
  = (Resolved (bool_decide (is_Some (remote w !! s))),
     with_trace (trace w ++ [StoreSessionExists s]) w).
Proof.
  intros H.
  unfold store_sessionExists, external, faulted, bind, called, modify, gets,
    ret. rewrite H. reflexivity.
Qed.

(** X10. Deleting the remote session when the store answers: a session that is
    not there leads to no [store.delete] call at all; one that is there is
    removed, the other sessions of the store and the disk stay as they are. *)
Theorem deleteRemoteSession_removes_its_session this w :
  let session := to_String (sessionName this) in
  faults w (length (trace w)) = false →
  (remote w !! session = None →
   deleteRemoteSession this w
   = (Resolved tt, with_trace (trace w ++ [StoreSessionExists session]) w))
  ∧ (is_Some (remote w !! session) →
     faults w (S (length (trace w))) = false →
     ∃ w', deleteRemoteSession this w = (Resolved tt, w')
           ∧ remote w' = delete session (remote w)
           ∧ files w' = files w
           ∧ trace w'
             = trace w ++ [StoreSessionExists session; StoreDelete session]).
Proof.
  intros session Hanswer. unfold deleteRemoteSession. fold session.
  rewrite (bind_resolved _ _ _ _ _ (store_sessionExists_answer session w Hanswer)).
  split.
  - intros Hnone. rewrite bool_decide_eq_false_2; [reflexivity|].
    rewrite Hnone. intros [? ?]. discriminate.
  - intros Hsome Hdelete. rewrite bool_decide_eq_true_2 by exact Hsome.
    unfold store_delete, external, faulted, bind, called, modify, gets, ret.
    cbn [trace with_trace faults]. rewrite length_app. simpl length.
    rewrite Nat.add_1_r, Hdelete.
    eexists. split; [reflexivity|]. simpl.
    repeat split. rewrite <- app_assoc. reflexivity.
Qed.

(** X11. A logout whose store calls succeed removes the working directory and
    clears the timer; what lies outside the working directory stays. *)
Theorem disconnect_removes_the_session this d w w1 :
  userDataDir this = Str d →
  deleteRemoteSession this w = (Resolved tt, w1) →
  ∃ w', logout this w = (Resolved tt, w')
        ∧ backupSync w' = None
        ∧ files w' !! d = None
        ∧ (∀ p, Fs.at_or_inside d p = false → files w' !! p = files w !! p)
        ∧ remote w' = remote w1.
Proof.
  intros Hd Hdel.
  pose proof (deleteRemoteSession_same_local this w) as [Hfiles _].
  rewrite Hdel in Hfiles. simpl in Hfiles.
  unfold logout, disconnect.
  rewrite (bind_resolved _ _ _ _ _ Hdel), Hd.
  rewrite (bind_resolved _ _ _ _ _ (isValidPath_spec d w1)).
  case_bool_decide as Hthere.
  - unfold swallow, try_catch, bind at 1. rewrite fs_rm_spec.
    eexists. split; [reflexivity|]. simpl.
    split; [reflexivity|]. split; [apply remove_tree_root|].
    split; [|reflexivity].
    intros p Hp. rewrite (remove_tree_outside _ _ _ Hp), Hfiles. reflexivity.
  - eexists. split; [reflexivity|]. simpl.
    split; [reflexivity|].
    split; [destruct (files w1 !! d); [destruct Hthere; eauto|reflexivity]|].
    split; [|reflexivity].
    intros p _. rewrite Hfiles. reflexivity.
Qed.

(** X12. A logout whose store call is rejected rejects with it before anything
    local is done: the working directory is still on disk and the timer is
    still armed. *)
Theorem disconnect_store_failure_keeps_timer this w e w1 :
  deleteRemoteSession this w = (Rejected e, w1) →
  logout this w = (Rejected e, w1)
  ∧ files w1 = files w
  ∧ backupSync w1 = backupSync w.
Proof.
  intros Hdel.
  pose proof (deleteRemoteSession_same_local this w) as Hsame.
  rewrite Hdel in Hsame. destruct Hsame as [Hf Ht].
  split; [|split; assumption].
  unfold logout, disconnect. apply bind_rejected. exact Hdel.
Qed.

(** ** After authentication *)

(** X14. When the store reports that the session exists, [afterAuthReady] makes
    no backup and waits for nothing: its only further call arms the timer,
    with the interval the instance was built with. *)
Theorem existing_session_only_arms_timer rev this w w1 :
  store_sessionExists (to_String (sessionName this)) w = (Resolved true, w1) →
  afterAuthReady rev this w
  = (Resolved tt,
     with_backupSync (Some (backupSyncIntervalMs this))
       (with_trace (trace w1 ++ [SetInterval (backupSyncIntervalMs this)]) w1)).
Proof.
  intros Hexists. unfold afterAuthReady.
  rewrite (bind_resolved _ _ _ _ _ Hexists). reflexivity.
Qed.

Lemma storeRemoteSession_same_timer rev this options :
  stable same_timer (storeRemoteSession rev this options).
Proof.
  unfold storeRemoteSession, compressSession, deleteMetadata, emit_requested,
    client_emit.
  destruct options as [[[]]|]; stable_timer.
Qed.

Lemma arms_bind {A B} ms (m : Async A) (k : A → Async B) :
  stable same_timer m →
  (∀ a w, backupSync (k a w).2
          = match (k a w).1 with
            | Resolved _ => Some ms
            | _ => backupSync w
            end) →
  ∀ w, backupSync (bind m k w).2
       = match (bind m k w).1 with
         | Resolved _ => Some ms
         | _ => backupSync w
         end.
Proof.
  intros Hm Hk w. unfold bind. specialize (Hm w). unfold same_timer in Hm.
  destruct (m w) as [[a|e|e] w1]; simpl in *; [|exact Hm|exact Hm].
  rewrite Hk. destruct (k a w1).1; congruence.
Qed.

(** X15. The timer is armed exactly when [afterAuthReady] resolves.  When the
    check with the store or the first backup rejects, the method rejects and
    the timer is left as it was: no recurring backup is started. *)
Theorem timer_armed_iff_afterAuthReady_resolves rev this w :
  backupSync (afterAuthReady rev this w).2
  = match (afterAuthReady rev this w).1 with
    | Resolved _ => Some (backupSyncIntervalMs this)
    | _ => backupSync w
    end.
Proof.
  unfold afterAuthReady. revert w.
  apply arms_bind; [stable_timer|]. intros b.
  apply arms_bind.
  - destruct (negb b); [|stable_timer].
    apply stable_bind; [typeclasses eauto|stable_timer|].
    intros _. apply storeRemoteSession_same_timer.
  - intros _ w. reflexivity.
Qed.

(** ** The backup cycle *)

Lemma store_save_calm s p : calm (store_save s p).
Proof. calm_call. Qed.

Lemma uploadAndCleanUp_resolves rev this options :
  resolves (uploadAndCleanUp rev this options).
Proof.
  unfold uploadAndCleanUp. apply resolves_bind.
  { intros w0. rewrite isValidPath_spec. eauto. }
  intros created. apply resolves_bind.
  { destruct created.
    - apply resolves_try_catch; [apply store_save_calm|].
      intros e w0. destruct rev; eexists; reflexivity.
    - intros w0. destruct rev; eexists; reflexivity. }
  intros _. apply resolves_bind.
  { apply resolves_try_catch; [apply fs_rm_calm|]. intros _. apply resolves_ret. }
  intros _ w0. destruct (emit_requested options); eexists; reflexivity.
Qed.

(** X16. A backup cycle rejects only when building the archive rejects, and with
    that error: checking for the old [.partial] file, uploading, logging and
    removing the staging directory never make the cycle reject. *)
Theorem cycle_rejects_only_with_the_build rev this options w e w' :
  storeRemoteSession rev this options w = (Rejected e, w') →
  compressSession rev this (discardStalePartial this w).2 = (Rejected e, w').
Proof.
  rewrite storeRemoteSession_phases.
  pose proof (discardStalePartial_resolves this w) as Hd.
  destruct (discardStalePartial this w) as [od w0] eqn:D.
  simpl in Hd. subst od. simpl.
  unfold bind at 1. rewrite D. unfold bind.
  destruct (compressSession rev this w0) as [[[]|e1|e1] w1]; try congruence.
  destruct (resolved_world _ w1 (uploadAndCleanUp_resolves rev this options w1))
    as ([] & w2 & ->).
  discriminate.
Qed.

Lemma store_save_resolved s p w w' :
  store_save s p w = (Resolved tt, w') →
  ∃ c, files w !! p = Some (File c)
       ∧ w' = with_remote (<[s := c]> (remote w))
                (with_trace (trace w ++ [StoreSave s p]) w).
Proof.
  unfold store_save, external, faulted, bind, called, modify, gets, throw, ret.
  cbv beta.
  destruct (faults w _); [discriminate|].
  change (files (with_trace (trace w ++ [StoreSave s p]) w)) with (files w).
  destruct (files w !! p) as [[c|]|]; try discriminate.
  intros [= <-]. eauto.
Qed.

(** X17. In a backup cycle of a constructed instance where the archive was built
    and [store.save] resolves, the cycle resolves with nothing logged: the
    remote blob of the session is the archive just built, which is still on
    disk under its final name, and the staging directory is gone. *)
Theorem upload_stores_the_built_archive rev proc o built options w w1 w3 :
  constructor rev proc o = Built built →
  let this := assigned rev built in
  let session := to_String (sessionName this) in
  let final := session +:+ ".zip" in
  compressSession rev this (discardStalePartial this w).2 = (Resolved tt, w1) →
  store_save session final (isValidPath final w1).2 = (Resolved tt, w3) →
  ∃ w' c,
    storeRemoteSession rev this options w = (Resolved tt, w')
    ∧ remote w' = <[session := c]> (remote w1)
    ∧ files w' !! final = Some (File c)
    ∧ files w1 !! final = Some (File c)
    ∧ files w' !! tempDir this = None
    ∧ console w' = console w1.
Proof.
  intros Hbuilt this session final Hbuild Hsave.
  assert (Fs.at_or_inside (tempDir this) final = false) as Hout.
  { apply archive_outside_staging.
    apply (constructor_laid_out _ _ _ _ Hbuilt). }
  pose proof (discardStalePartial_resolves this w) as Hd.
  destruct (discardStalePartial this w) as [od w0] eqn:D.
  simpl in Hd, Hbuild. subst od.
  rewrite isValidPath_spec in Hsave. simpl in Hsave.
  destruct (store_save_resolved _ _ _ _ Hsave) as (c & Hc & Hw3).
  change (files (with_trace (trace w1 ++ [FsAccess final]) w1))
    with (files w1) in Hc.
  rewrite storeRemoteSession_phases.
  rewrite (bind_resolved _ _ _ _ _ D).
  rewrite (bind_resolved _ _ _ _ _ Hbuild).
  unfold uploadAndCleanUp. fold session. fold final.
  rewrite (bind_resolved _ _ _ _ _ (isValidPath_spec final w1)).
  rewrite bool_decide_eq_true_2 by (rewrite Hc; eauto).
  unfold bind at 1, try_catch at 1. rewrite Hsave, Hw3.
  unfold swallow, try_catch.
  destruct (emit_requested options).
  all: eexists; exists c; split; [reflexivity|]; simpl.
  all: rewrite (remove_tree_outside _ _ _ Hout).
  all: repeat split; try assumption; apply remove_tree_root.
Qed.

Lemma store_save_calls s p w :
  trace (store_save s p w).2 = trace w ++ [StoreSave s p].
Proof.
  unfold store_save, external, faulted, bind, called, modify, gets, throw, ret.
  cbv beta.
  destruct (faults w _); [reflexivity|].
  change (files (with_trace (trace w ++ [StoreSave s p]) w)) with (files w).
  destruct (files w !! p) as [[c|]|]; reflexivity.
Qed.

Lemma uploadAndCleanUp_calls_store rev this options w1 :
  let session := to_String (sessionName this) in
  let final := session +:+ ".zip" in
  is_Some (files w1 !! final) →
  ∃ rest,
    trace (uploadAndCleanUp rev this options w1).2
    = trace w1 ++ [FsAccess final; StoreSave session final] ++ rest.
Proof.
  intros session final Hfinal.
  unfold uploadAndCleanUp. fold session. fold final.
  rewrite (bind_resolved _ _ _ _ _ (isValidPath_spec final w1)).
  rewrite bool_decide_eq_true_2 by exact Hfinal.
  set (w2 := with_trace (trace w1 ++ [FsAccess final]) w1).
  pose proof (store_save_calls session final w2) as Hcall.
  match goal with
  | |- ∃ rest, trace (bind (try_catch _ ?h0) ?k0 w2).2 = _ =>
      set (h := h0); set (k := k0);
      assert (∀ e, stable (calls any_call) (h e)) as Hh;
        [|assert (∀ a, stable (calls any_call) (k a)) as Hk]
  end.
  { intros e. unfold h. destruct rev; stable_calls. }
  { intros a. unfold k, client_emit.
    destruct (emit_requested options); stable_calls. }
  unfold bind at 1, try_catch.
  destruct (store_save session final w2) as [[[]|e|e] w3]; simpl in Hcall.
  - destruct (Hk tt w3) as (rest & Hrest & _).
    exists rest. rewrite Hrest, Hcall. unfold w2. simpl.
    rewrite <- !app_assoc. reflexivity.
  - destruct (Hh e w3) as (r1 & Hr1 & _).
    destruct (h e w3) as [[[]|e1|e1] w4]; simpl in Hr1 |- *.
    + destruct (Hk tt w4) as (rest & Hrest & _).
      exists (r1 ++ rest). rewrite Hrest, Hr1, Hcall. unfold w2. simpl.
      rewrite <- !app_assoc. reflexivity.
    + exists r1. rewrite Hr1, Hcall. unfold w2. simpl.
      rewrite <- !app_assoc. reflexivity.
    + exists r1. rewrite Hr1, Hcall. unfold w2. simpl.
      rewrite <- !app_assoc. reflexivity.
  - exists []. simpl. rewrite Hcall. unfold w2. simpl.
    rewrite <- !app_assoc. reflexivity.
Qed.

Lemma discardStalePartial_grows this :
  stable (calls any_call) (discardStalePartial this).
Proof. unfold discardStalePartial. stable_calls. Qed.

Lemma compressSession_grows rev this :
  stable (calls any_call) (compressSession rev this).
Proof. unfold compressSession, deleteMetadata. stable_calls. Qed.

(** X18. A backup cycle that resolves has called [store.save] for the session
    with the final archive: once the archive is built it is found on disk,
    so the upload is attempted before the cycle ends. *)
Theorem resolved_cycle_has_called_the_store rev this options w w' :
  storeRemoteSession rev this options w = (Resolved tt, w') →
  ∃ before after,
    trace w'
    = trace w ++ before
        ++ StoreSave (to_String (sessionName this))
             (to_String (sessionName this) +:+ ".zip") :: after.
Proof.
  rewrite storeRemoteSession_phases. intros H.
  apply bind_resolved_inv in H as ([] & w0 & Hd & H).
  apply bind_resolved_inv in H as ([] & w1 & Hbuild & H).
  destruct (discardStalePartial_grows this w) as (l0 & E0 & _).
  destruct (compressSession_grows rev this w0) as (l1 & E1 & _).
  rewrite Hd in E0. rewrite Hbuild in E1. simpl in E0, E1.
  destruct (uploadAndCleanUp_calls_store rev this options w1
              (compressSession_resolved_creates _ _ _ _ Hbuild))
    as (rest & Hrest).
  rewrite H in Hrest. simpl in Hrest.
  exists (l0 ++ l1 ++ [FsAccess (to_String (sessionName this) +:+ ".zip")]),
    rest.
  rewrite Hrest, E1, E0. rewrite <- !app_assoc. reflexivity.
Qed.

(** *** The [.partial] file and the final archive *)

#[local] Instance stays_absent_preorder q : PreOrder (stays_absent q).
Proof.
  split; unfold stays_absent.
  - intros w H. exact H.
  - intros w1 w2 w3 H12 H23 H. auto.
Qed.

#[local] Instance same_entry_preorder q : PreOrder (same_entry q).
Proof.
  split; unfold same_entry.
  - intros w. reflexivity.
  - intros w1 w2 w3 H12 H23. congruence.
Qed.

Lemma remove_tree_absent d q (fs : gmap string Node) :
  fs !! q = None → Fs.remove_tree d fs !! q = None.
Proof.
  intros H. unfold Fs.remove_tree. apply map_lookup_filter_None_2.
  left. exact H.
Qed.

Lemma uploadAndCleanUp_stays_absent rev this options q :
  stable (stays_absent q) (uploadAndCleanUp rev this options).
Proof.
  unfold uploadAndCleanUp, emit_requested, client_emit.
  destruct options as [[[]]|]; stable_steps.
  all: solve [ apply stable_modify; intros w0 H0; simpl;
               first [exact H0 | apply remove_tree_absent; exact H0]
             | unfold called; apply stable_modify; intros w0 H0; exact H0 ].
Qed.

Lemma append_inj_l (s x y : string) : s +:+ x = s +:+ y → x = y.
Proof.
  induction s as [|c s IH]; simpl; [auto|]. intros [= H]. auto.
Qed.

Lemma append_assoc (a b c : string) : (a +:+ b) +:+ c = a +:+ (b +:+ c).
Proof.
  induction a as [|x a IH]; [reflexivity|].
  change (String x ((a +:+ b) +:+ c) = String x (a +:+ (b +:+ c))).
  rewrite IH. reflexivity.
Qed.

Lemma graft_lookup_other dst entries q (fs : gmap string Node) :
  (∀ rel, dst +:+ "/" +:+ rel ≠ q) →
  Fs.graft dst entries fs !! q = fs !! q.
Proof.
  intros Hne. unfold Fs.graft.
  induction entries as [|[rel n] l IH]; simpl; [reflexivity|].
  rewrite lookup_insert_ne; [exact IH|apply Hne].
Qed.

Lemma fs_rename_resolved_moves s w w' :
  fs_rename (s +:+ ".zip.partial") (s +:+ ".zip") w = (Resolved tt, w') →
  files w' !! (s +:+ ".zip.partial") = None.
Proof.
  assert (s +:+ ".zip" ≠ s +:+ ".zip.partial") as Hne.
  { intros H. apply append_inj_l in H. discriminate. }
  assert (∀ rel, (s +:+ ".zip") +:+ "/" +:+ rel ≠ s +:+ ".zip.partial") as Hg.
  { intros rel H. rewrite append_assoc in H.
    apply append_inj_l in H. discriminate. }
  unfold fs_rename, set_files, bind, called, modify, gets, throw.
  cbv beta.
  match goal with
  | |- context [files (with_trace ?t w)] =>
      change (files (with_trace t w)) with (files w)
  end.
  destruct (files w !! (s +:+ ".zip.partial")) as [[c|]|]; [| |discriminate].
  - destruct (files w !! (s +:+ ".zip")) as [[c'|]|]; try discriminate.
    all: cbv beta; intros [= <-]; simpl.
    all: rewrite lookup_insert_ne by exact Hne; apply lookup_delete_eq.
  - destruct (files w !! (s +:+ ".zip")) as [[c'|]|]; try discriminate.
    all: destruct (Fs.names (s +:+ ".zip") _); try discriminate.
    all: cbv beta; intros [= <-]; simpl.
    all: rewrite (graft_lookup_other _ _ _ _ Hg).
    all: rewrite lookup_insert_ne by exact Hne; apply remove_tree_root.
Qed.

(** X19. A backup cycle that resolves leaves no [.partial] file: the one it
    wrote has been renamed to the final archive. *)
Theorem resolved_cycle_leaves_no_partial rev this options w w' :
  storeRemoteSession rev this options w = (Resolved tt, w') →
  files w' !! (to_String (sessionName this) +:+ ".zip.partial") = None.
Proof.
  rewrite storeRemoteSession_phases. intros H.
  apply bind_resolved_inv in H as ([] & w0 & _ & H).
  apply bind_resolved_inv in H as ([] & w1 & Hbuild & H).
  pose proof (uploadAndCleanUp_stays_absent rev this options
                (to_String (sessionName this) +:+ ".zip.partial") w1) as Hkeep.
  rewrite H in Hkeep. apply Hkeep. clear Hkeep H.
  unfold compressSession in Hbuild.
  do 4 (apply bind_resolved_inv in Hbuild as (? & ? & _ & Hbuild)).
  unfold try_catch in Hbuild.
  destruct (fs_rename _ _ _) as [[[]|e|e] wr] eqn:R; try discriminate.
  injection Hbuild as <-. eapply fs_rename_resolved_moves. exact R.
Qed.

Lemma stable_for_of_in {A} (R : relation World) `{!PreOrder R} (l : list A)
    (body : A → Async unit) :
  (∀ x, x ∈ l → stable R (body x)) → stable R (for_of l body).
Proof.
  intros Hb. induction l as [|x l IH]; simpl.
  - apply stable_ret. typeclasses eauto.
  - apply stable_bind; [typeclasses eauto| |intros _].
    + apply Hb. apply list_elem_of_here.
    + apply IH. intros y Hy. apply Hb. apply list_elem_of_further. exact Hy.
Qed.

(** Take a method apart along its control flow, leaving its calls whole. *)
Ltac stable_struct :=
  lazymatch goal with
  | |- stable _ (bind _ _) =>
      apply stable_bind; [ typeclasses eauto | | intros ? ]
  | |- stable _ (try_catch _ _) =>
      apply stable_try_catch; [ typeclasses eauto | | intros ? ]
  | |- stable _ (for_of _ _) =>
      apply stable_for_of; [ typeclasses eauto | intros ? ]
  | |- stable _ (ret _) => apply stable_ret; typeclasses eauto
  | |- stable _ (throw _) => apply stable_throw; typeclasses eauto
  | |- stable _ (match ?x with _ => _ end) => destruct x eqn:?
  | |- stable _ (swallow _) => unfold swallow
  | |- stable _ (or_else _ _) => unfold or_else
  | |- stable _ (isValidPath _) => unfold isValidPath
  end.



Section SameEntry.
Context (q : string) (Hq : Path.isAbsolute q = false).











End SameEntry.






(** *** The metadata filter *)

Section Calls.
Context (P : Call → Prop).

Lemma called_calls c : P c → stable (calls P) (called c).
Proof.
  intros Hc. unfold called. apply stable_modify. intros w. exists [c].
  split; [reflexivity|]. repeat constructor. exact Hc.
Qed.

Ltac quiet :=
  solve [ apply stable_modify; intros ?; exists []; simpl;
          rewrite app_nil_r; split; [reflexivity | constructor] ].

Lemma fs_access_calls p : P (FsAccess p) → stable (calls P) (fs_access p).
Proof.
  intros Hc. unfold fs_access.
  repeat first [stable_struct | apply called_calls; exact Hc
               | apply stable_gets; typeclasses eauto].
Qed.

Lemma fs_readdir_calls p : P (FsReaddir p) → stable (calls P) (fs_readdir p).
Proof.
  intros Hc. unfold fs_readdir.
  repeat first [stable_struct | apply called_calls; exact Hc
               | apply stable_gets; typeclasses eauto].
Qed.

Lemma fs_lstat_calls p : P (FsLstat p) → stable (calls P) (fs_lstat p).
Proof.
  intros Hc. unfold fs_lstat.
  repeat first [stable_struct | apply called_calls; exact Hc
               | apply stable_gets; typeclasses eauto].
Qed.

Lemma fs_rm_calls p : P (FsRm p) → stable (calls P) (fs_rm p).
Proof.
  intros Hc. unfold fs_rm, set_files.
  repeat first [stable_struct | apply called_calls; exact Hc | quiet].
Qed.

Lemma fs_unlink_calls p : P (FsUnlink p) → stable (calls P) (fs_unlink p).
Proof.
  intros Hc. unfold fs_unlink, set_files.
  repeat first [stable_struct | apply called_calls; exact Hc
               | apply stable_gets; typeclasses eauto | quiet].
Qed.

End Calls.

Lemma fs_readdir_spec p w :
  fs_readdir p w
  = (match files w !! p with
     | Some Dir => Resolved (Fs.names p (files w))
     | Some (File _) => Rejected ENOTDIR
     | None => Rejected ENOENT
     end,
     with_trace (trace w ++ [FsReaddir p]) w).
Proof.
  unfold fs_readdir, bind, called, modify, gets, throw. cbv beta.
  change (files (with_trace (trace w ++ [FsReaddir p]) w)) with (files w).
  destruct (files w !! p) as [[c|]|]; reflexivity.
Qed.

Lemma fs_lstat_spec p w :
  fs_lstat p w
  = (match files w !! p with
     | Some n => Resolved n
     | None => Rejected ENOENT
     end,
     with_trace (trace w ++ [FsLstat p]) w).
Proof.
  unfold fs_lstat, bind, called, modify, gets, throw, ret. cbv beta.
  change (files (with_trace (trace w ++ [FsLstat p]) w)) with (files w).
  destruct (files w !! p) as [n|]; reflexivity.
Qed.

Lemma filterElement_calls rev this dir fs element :
  element ∈ Fs.names dir fs →
  stable (calls (pass_call this dir fs)) (filterElement rev this dir element).
Proof.
  intros Hin. unfold filterElement.
  destruct rev.
  all: repeat first
    [ stable_struct
    | apply fs_lstat_calls; simpl; exists element;
      split; [exact Hin|split; [apply negb_true_iff; eassumption|reflexivity]]
    | apply fs_rm_calls; simpl; exists element;
      split; [exact Hin|split; [apply negb_true_iff; eassumption|reflexivity]]
    | apply fs_unlink_calls; simpl; exists element;
      split; [exact Hin|split; [apply negb_true_iff; eassumption|reflexivity]]
    ].
Qed.

Lemma filterDirectory_calls rev this dir w :
  calls (pass_call this dir (files w)) w (filterDirectory rev this dir w).2.
Proof.
  set (P := pass_call this dir (files w)).
  assert (∀ w0 l, files w0 = files w → l = Fs.names dir (files w) ∨ l = [] →
          calls P w0 (for_of l (filterElement rev this dir) w0).2) as Hloop.
  { intros w0 l _ Hl.
    apply (stable_for_of_in (calls P)). intros element Hin.
    apply filterElement_calls.
    destruct Hl as [->| ->]; [exact Hin|]. inversion Hin. }
  assert (∀ c w0, P c → calls P w0 (with_trace (trace w0 ++ [c]) w0)) as Hone.
  { intros c w0 Hc. exists [c]. split; [reflexivity|].
    repeat constructor. exact Hc. }
  unfold filterDirectory. destruct rev.
  - unfold bind. rewrite fs_readdir_spec.
    pose proof (Hone (FsReaddir dir) w eq_refl) as Hlist.
    destruct (files w !! dir) as [[c|]|]; simpl; try exact Hlist.
    etransitivity; [exact Hlist|]. apply Hloop; [reflexivity|auto].
  - unfold bind at 1. rewrite isValidPath_spec.
    pose proof (Hone (FsAccess dir) w eq_refl) as Hlook.
    set (w1 := with_trace (trace w ++ [FsAccess dir]) w) in *.
    destruct (bool_decide (is_Some (files w !! dir))); simpl;
      [|exact Hlook].
    etransitivity; [exact Hlook|].
    unfold bind, or_else, try_catch. rewrite fs_readdir_spec.
    pose proof (Hone (FsReaddir dir) w1 eq_refl) as Hlist.
    change (files w1) with (files w).
    destruct (files w !! dir) as [[c|]|]; simpl.
    all: etransitivity; [exact Hlist|];
      first [apply Hloop; [reflexivity|auto] | reflexivity].
Qed.

Lemma filterElement_stays_absent rev this dir element q :
  stable (stays_absent q) (filterElement rev this dir element).
Proof.
  unfold filterElement. destruct rev; stable_steps.
  all: solve [ apply stable_modify; intros w0 H0; simpl;
               first [ exact H0
                     | apply remove_tree_absent; exact H0
                     | apply lookup_delete_None; right; exact H0 ]
             | unfold called; apply stable_modify; intros w0 H0; exact H0 ].
Qed.

Lemma filterElement_removes rev this dir element w w' :
  includes (requiredDirs this) element = false →
  filterElement rev this dir element w = (Resolved tt, w') →
  files w' !! Path.join dir element = None.
Proof.
  intros Hfree. unfold filterElement. rewrite Hfree.
  change (negb false) with true. cbv iota.
  set (target := Path.join dir element).
  destruct rev.
  - unfold bind. rewrite fs_lstat_spec.
    set (w1 := with_trace (trace w ++ [FsLstat target]) w).
    destruct (files w !! target) as [[c|]|] eqn:E; simpl; [| |discriminate].
    + rewrite swallowed_unlink_spec. change (files w1) with (files w).
      rewrite E. intros [= <-]. simpl. apply lookup_delete_eq.
    + unfold swallow, try_catch. rewrite fs_rm_spec. intros [= <-]. simpl.
      apply remove_tree_root.
  - unfold bind, or_else, try_catch. unfold bind. rewrite fs_lstat_spec.
    set (w1 := with_trace (trace w ++ [FsLstat target]) w).
    destruct (files w !! target) as [[c|]|] eqn:E; simpl.
    + rewrite swallowed_unlink_spec. change (files w1) with (files w).
      rewrite E. intros [= <-]. simpl. apply lookup_delete_eq.
    + unfold swallow, try_catch. rewrite fs_rm_spec. intros [= <-]. simpl.
      apply remove_tree_root.
    + intros [= <-]. exact E.
Qed.

Lemma filter_loop_removes rev this dir l w w' :
  for_of l (filterElement rev this dir) w = (Resolved tt, w') →
  ∀ element, element ∈ l → includes (requiredDirs this) element = false →
  files w' !! Path.join dir element = None.
Proof.
  revert w. induction l as [|x l IH]; intros w Hrun element Hin Hfree.
  - inversion Hin.
  - simpl in Hrun.
    apply bind_resolved_inv in Hrun as ([] & w1 & Hx & Hrest).
    apply elem_of_cons in Hin as [->|Hin]; [|eapply IH; eassumption].
    pose proof (stable_for_of (stays_absent (Path.join dir x)) l
                  (filterElement rev this dir)
                  (λ y, filterElement_stays_absent rev this dir y _) w1)
      as Hstay.
    rewrite Hrest in Hstay. apply Hstay.
    eapply filterElement_removes; eassumption.
Qed.

Lemma filterDirectory_removes rev this dir w w' :
  files w !! dir = Some Dir →
  filterDirectory rev this dir w = (Resolved tt, w') →
  ∀ element, element ∈ Fs.names dir (files w) →
  includes (requiredDirs this) element = false →
  files w' !! Path.join dir element = None.
Proof.
  intros Hdir. unfold filterDirectory. destruct rev.
  - unfold bind. rewrite fs_readdir_spec, Hdir. apply filter_loop_removes.
  - unfold bind at 1. rewrite isValidPath_spec.
    rewrite bool_decide_eq_true_2 by (rewrite Hdir; eauto).
    change (negb true) with false. cbv iota.
    unfold bind, or_else, try_catch. rewrite fs_readdir_spec.
    change (files (with_trace (trace w ++ [FsAccess dir]) w)) with (files w).
    rewrite Hdir. apply filter_loop_removes.
Qed.

(** X21. The metadata filter of either copy is a pass over the staging
    directory and a pass over its [Default].  Whatever is on disk, a pass
    over a directory only looks at that directory and at what its listing
    holds under a name outside the required list, and removes nothing else;
    and when the directory is there and the pass resolves, everything its
    listing held under such a name is gone. *)
Theorem metadata_filter_removes_listed_unrequired rev this dir w :
  deleteMetadata rev this
  = for_of [tempDir this; Path.join (tempDir this) "Default"]
      (filterDirectory rev this)
  ∧ (∃ made,
       trace (filterDirectory rev this dir w).2 = trace w ++ made
       ∧ Forall (pass_call this dir (files w)) made)
  ∧ (files w !! dir = Some Dir →
     (filterDirectory rev this dir w).1 = Resolved tt →
     ∀ element,
       element ∈ Fs.names dir (files w) →
       includes (requiredDirs this) element = false →
       files (filterDirectory rev this dir w).2 !! Path.join dir element
       = None).
Proof.
  split; [destruct rev; reflexivity|].
  split; [apply filterDirectory_calls|].
  intros Hdir Hrun.
  destruct (filterDirectory rev this dir w) as [out w'] eqn:E.
  simpl in Hrun. subst out. simpl.
  eapply filterDirectory_removes; eassumption.
Qed.

(** ** The further properties at concrete inputs *)

Lemma interval_below_floor_witness :
  constructor Named proc
    (configured (Str "bot") (Some 59999) (Some StoreObject))
  = Threw (invalid_interval Named).
Proof.
  apply interval_below_floor_is_rejected.
  - reflexivity.
  - intros _. reflexivity.
  - intros ms [= <-]. lia.
Defined.

Lemma store_is_required_witness :
  constructor Unnamed proc (configured (Str "bot") (Some 60000) None)
  = Threw store_required.
Proof.
  apply (store_is_required Unnamed proc
           (configured (Str "bot") (Some 60000) None) 60000).
  - reflexivity.
  - discriminate.
  - reflexivity.
  - lia.
  - reflexivity.
Defined.

Lemma built_clientId_witness :
  contains "/" "bot" = false ∧ contains "." "bot" = false.
Proof.
  apply (built_clientId_is_one_segment Named proc (options (Str "bot"))
           (built Named)).
  reflexivity.
Defined.

Lemma foreign_userDataDir_witness :
  beforeBrowserInitialized Named (built Named) foreign
  = (Rejected incompatible_userDataDir, foreign).
Proof.
  apply foreign_userDataDir_is_refused.
  - reflexivity.
  - vm_compute. discriminate.
Defined.

Lemma beforeBrowserInitialized_witness :
  beforeBrowserInitialized Named (built Named) (world ∅ ∅ never)
  = (Resolved (bot Named),
     with_puppeteer_userDataDir (Str "/app/.wwebjs_auth/RemoteAuth-bot")
       (extractRemoteSession Named (bot Named) (world ∅ ∅ never)).2).
Proof.
  rewrite (beforeBrowserInitialized_follows_restore Named (built Named)
             (world ∅ ∅ never)).
  - vm_compute. reflexivity.
  - left. reflexivity.
Defined.

Lemma restore_without_remote_session_witness :
  extractRemoteSession Named (bot Named) (world ∅ ∅ never)
  = (Resolved tt,
     with_files {[ "/app/.wwebjs_auth/RemoteAuth-bot" := Dir ]}
       (with_trace
          [StoreSessionExists "RemoteAuth-bot";
           FsMkdir (Str "/app/.wwebjs_auth/RemoteAuth-bot")]
          (world ∅ ∅ never))).
Proof.
  exact (restore_without_remote_session Named (bot Named)
           "/app/.wwebjs_auth/RemoteAuth-bot" (world ∅ ∅ never)
           (with_trace [StoreSessionExists "RemoteAuth-bot"]
              (world ∅ ∅ never))
           eq_refl eq_refl).
Defined.


Lemma restore_after_fetch_witness :
  ∃ w', extractRemoteSession Named (bot Named) garbled = (Resolved tt, w')
        ∧ remote w' = {[ "RemoteAuth-bot" := Bytes "not a zip" ]}.
Proof.
  destruct (restore_after_fetch_always_resolves Named (bot Named) garbled
              (store_sessionExists "RemoteAuth-bot" garbled).2
              (store_extract "RemoteAuth-bot" "RemoteAuth-bot.zip"
                 (store_sessionExists "RemoteAuth-bot" garbled).2).2)
    as (w' & Hrun & Hremote).
  - vm_compute. reflexivity.
  - vm_compute. reflexivity.
  - exists w'. split; [exact Hrun|]. rewrite Hremote. reflexivity.
Defined.

Lemma deleteRemoteSession_witness :
  ∃ w', deleteRemoteSession (bot Named) (world ∅ stored never)
        = (Resolved tt, w')
        ∧ remote w' !! "RemoteAuth-bot" = None.
Proof.
  destruct (deleteRemoteSession_removes_its_session (bot Named)
              (world ∅ stored never))
    as (_ & Hthere).
  - reflexivity.
  - destruct Hthere as (w' & Hrun & Hremote & _).
    + vm_compute. eauto.
    + reflexivity.
    + exists w'. split; [exact Hrun|]. rewrite Hremote.
      apply lookup_delete_eq.
Defined.

Lemma disconnect_witness :
  ∃ w', logout (bot Named) (world profile stored never) = (Resolved tt, w')
        ∧ backupSync w' = None
        ∧ files w' !! "/app/.wwebjs_auth/RemoteAuth-bot" = None.
Proof.
  destruct (disconnect_removes_the_session (bot Named)
              "/app/.wwebjs_auth/RemoteAuth-bot"
              (world profile stored never)
              (deleteRemoteSession (bot Named)
                 (world profile stored never)).2)
    as (w' & Hrun & Htimer & Hgone & _).
  - reflexivity.
  - vm_compute. reflexivity.
  - exists w'. auto.
Defined.

Lemma disconnect_store_failure_witness :
  logout (bot Named) (with_backupSync (Some 60000) (world profile stored always))
  = (Rejected (Err "store.sessionExists rejected"),
     (deleteRemoteSession (bot Named)
        (with_backupSync (Some 60000) (world profile stored always))).2)
  ∧ backupSync
      (deleteRemoteSession (bot Named)
         (with_backupSync (Some 60000) (world profile stored always))).2
    = Some 60000.
Proof.
  destruct (disconnect_store_failure_keeps_timer (bot Named)
              (with_backupSync (Some 60000) (world profile stored always))
              (Err "store.sessionExists rejected")
              (deleteRemoteSession (bot Named)
                 (with_backupSync (Some 60000)
                    (world profile stored always))).2)
    as (Hrun & _ & Htimer).
  - vm_compute. reflexivity.
  - split; [exact Hrun|exact Htimer].
Defined.

Lemma existing_session_witness :
  afterAuthReady Named (bot Named) (world profile stored never)
  = (Resolved tt,
     with_backupSync (Some 60000)
       (with_trace [StoreSessionExists "RemoteAuth-bot"; SetInterval 60000]
          (world profile stored never))).
Proof.
  exact (existing_session_only_arms_timer Named (bot Named)
           (world profile stored never)
           (with_trace [StoreSessionExists "RemoteAuth-bot"]
              (world profile stored never))
           eq_refl).
Defined.

Lemma cycle_rejects_witness :
  compressSession Named (bot Named)
    (discardStalePartial (bot Named) (world profile ∅ always)).2
  = (Rejected (Err "archiver: stream error"),
     (storeRemoteSession Named (bot Named) None (world profile ∅ always)).2).
Proof.
  apply (cycle_rejects_only_with_the_build Named (bot Named) None).
  vm_compute. reflexivity.
Defined.

Lemma upload_stores_witness :
  ∃ w' c,
    storeRemoteSession Named (bot Named) None (world profile ∅ never)
    = (Resolved tt, w')
    ∧ remote w' !! "RemoteAuth-bot" = Some c
    ∧ files w' !! "RemoteAuth-bot.zip" = Some (File c).
Proof.
  destruct (upload_stores_the_built_archive Named proc (options (Str "bot"))
              (built Named) None (world profile ∅ never)
              (compressSession Named (bot Named)
                 (discardStalePartial (bot Named)
                    (world profile ∅ never)).2).2
              (store_save "RemoteAuth-bot" "RemoteAuth-bot.zip"
                 (isValidPath "RemoteAuth-bot.zip"
                    (compressSession Named (bot Named)
                       (discardStalePartial (bot Named)
                          (world profile ∅ never)).2).2).2).2)
    as (w' & c & Hrun & Hremote & Hlocal & _).
  - reflexivity.
  - vm_compute. reflexivity.
  - vm_compute. reflexivity.
  - exists w', c. split; [exact Hrun|]. split; [|exact Hlocal].
    rewrite Hremote. apply lookup_insert_eq.
Defined.

Lemma resolved_cycle_store_witness :
  ∃ before after,
    trace (storeRemoteSession Named (bot Named) None
             (world profile ∅ never)).2
    = before ++ StoreSave "RemoteAuth-bot" "RemoteAuth-bot.zip" :: after.
Proof.
  destruct (resolved_cycle_has_called_the_store Named (bot Named) None
              (world profile ∅ never)
              (storeRemoteSession Named (bot Named) None
                 (world profile ∅ never)).2)
    as (before & after & Htrace).
  - vm_compute. reflexivity.
  - exists before, after. exact Htrace.
Defined.

Lemma resolved_cycle_partial_witness :
  files (storeRemoteSession Named (bot Named) None interrupted).2
    !! "RemoteAuth-bot.zip.partial"
  = None.
Proof.
  apply (resolved_cycle_leaves_no_partial Named (bot Named) None interrupted).
  vm_compute. reflexivity.
Defined.


Lemma staging_removed_witness :
  files (storeRemoteSession Named (bot Named) None
           (world profile ∅ never)).2
    !! "/app/.wwebjs_auth/wwebjs_temp_session_bot"
  = None.
Proof.
  apply (staging_removed_when_cycle_resolves Named (bot Named) None
           (world profile ∅ never)).
  vm_compute. reflexivity.
Defined.

Lemma metadata_filter_witness :
  files (filterDirectory Named (bot Named)
           "/app/.wwebjs_auth/wwebjs_temp_session_bot/Default" staged).2
    !! "/app/.wwebjs_auth/wwebjs_temp_session_bot/Default/Cache"
  = None.
Proof.
  destruct (metadata_filter_removes_listed_unrequired Named (bot Named)
              "/app/.wwebjs_auth/wwebjs_temp_session_bot/Default" staged)
    as (_ & _ & Hgone).
  apply (Hgone eq_refl eq_refl "Cache").
  - vm_compute. apply list_elem_of_here.
  - reflexivity.
Defined.
